(** * tinyland-video-thumbnails: a shallow embedding and its properties

    The TypeScript sources [src/types.ts], [src/platforms.ts],
    [src/fetchers.ts] and [src/cache.ts] are embedded as Rocq functions.

    - A JavaScript string is a [string]: the sequence of bytes of its UTF-8
      encoding.  Every pattern and every needle the program uses is ASCII, and
      an ASCII byte never occurs inside the encoding of another character, so
      searching bytes and searching UTF-16 code units find the same matches.
    - A value that comes out of [JSON.parse] is a [JSValue]; TypeScript's
      [as string] and [as number] are erased at run time, so the fields of a
      result that are copied out of a response hold a [JSValue].
    - A synchronous body that may throw is a [Completion]; an [async] function
      is a [Prog]: a finite tree whose inner nodes are the calls to [fetch]
      and to [Date.now] and whose leaves are a returned value or a throw.
    - The module-level [thumbnailCache] is threaded through as a [Store].
    - What the JavaScript runtime provides and the repository only calls
      ([new URL], [encodeURIComponent], the [ToString] of a template literal)
      is a [Runtime] record that every definition takes as a parameter. *)

From Stdlib Require Import String Ascii List ZArith Bool Lia.
From Stdlib Require Import SpecFloat.
Import ListNotations.

Local Open Scope string_scope.
Local Open Scope Z_scope.

(** ** Completions: [try] / [catch] for synchronous code *)

Inductive Completion (A : Type) : Type :=
| Normal (a : A)
| Abrupt.
Arguments Normal {A} a.
Arguments Abrupt {A}.

Definition cbind {A B} (c : Completion A) (f : A -> Completion B) : Completion B :=
  match c with
  | Normal a => f a
  | Abrupt => Abrupt
  end.

(** [try { body } catch { handler }]: the handler never looks at the thrown
    value (the sources write [catch {] without a binding). *)
Definition ctry {A} (body handler : Completion A) : Completion A :=
  match body with
  | Normal a => Normal a
  | Abrupt => handler
  end.

(** ** The part of the JavaScript runtime the program uses *)

Module JS.

(** *** Strings *)

(** [s.startsWith(p)] *)
Fixpoint startsWith (p s : string) : bool :=
  match p, s with
  | EmptyString, _ => true
  | String _ _, EmptyString => false
  | String a p', String b s' => Ascii.eqb a b && startsWith p' s'
  end.

(** [s.includes(needle)] *)
Fixpoint includes (s needle : string) : bool :=
  startsWith needle s ||
  match s with
  | EmptyString => false
  | String _ s' => includes s' needle
  end.

Definition is_upper (c : ascii) : bool :=
  let n := nat_of_ascii c in (65 <=? n)%nat && (n <=? 90)%nat.
Definition is_lower (c : ascii) : bool :=
  let n := nat_of_ascii c in (97 <=? n)%nat && (n <=? 122)%nat.
Definition is_digit (c : ascii) : bool :=
  let n := nat_of_ascii c in (48 <=? n)%nat && (n <=? 57)%nat.

Definition lower_char (c : ascii) : ascii :=
  if is_upper c then ascii_of_nat (nat_of_ascii c + 32) else c.

(** [s.toLowerCase()].  The program applies it to [URL.hostname] only, which
    the URL parser always returns in ASCII (a domain is converted with
    Punycode, an opaque host is percent-encoded), so lowering the letters
    [A]-[Z] is all that [toLowerCase] does there. *)
Fixpoint toLowerCase (s : string) : string :=
  match s with
  | EmptyString => EmptyString
  | String c s' => String (lower_char c) (toLowerCase s')
  end.

(** *** Regular expressions

    The four regular expressions of the program have one shape: a choice of
    literal strings followed by one capturing group, a greedy non-empty run of
    one character class, and nothing after it:
    [/(?:lit1|lit2|...)([class]+)/]. *)

Record RegExp : Type := {
  literals : list string;
  class : ascii -> bool
}.

(** The longest prefix of [s] made of characters of the class. *)
Fixpoint run_of (cls : ascii -> bool) (s : string) : string :=
  match s with
  | EmptyString => EmptyString
  | String c s' => if cls c then String c (run_of cls s') else EmptyString
  end.

(** [s] without its first [n] characters. *)
Fixpoint drop (n : nat) (s : string) : string :=
  match n, s with
  | O, _ => s
  | S _, EmptyString => EmptyString
  | S n', String _ s' => drop n' s'
  end.

(** A match that starts at the first character of [s]: the alternatives are
    tried from left to right, and one whose literal is there but is followed
    by no character of the class fails and gives way to the next.  The value
    is capture group 1. *)
Fixpoint match_here (lits : list string) (cls : ascii -> bool) (s : string)
  : option string :=
  match lits with
  | [] => None
  | lit :: rest =>
      if startsWith lit s then
        match run_of cls (drop (String.length lit) s) with
        | EmptyString => match_here rest cls s
        | group => Some group
        end
      else match_here rest cls s
  end.

(** [s.match(re)] for a regular expression without the [g] flag: the match
    that starts leftmost.  [None] is JavaScript's [null]; [Some g] is a match
    array whose element [1] is [g]. *)
Fixpoint match_ (s : string) (re : RegExp) : option string :=
  match match_here (literals re) (class re) s with
  | Some g => Some g
  | None =>
      match s with
      | EmptyString => None
      | String _ s' => match_ s' re
      end
  end.

(** *** Values *)

(** A JavaScript [number] is an IEEE 754 double. *)
Definition number : Type := spec_float.

Definition number_of_Z (z : Z) : number :=
  match z with
  | Z0 => S754_zero false
  | Zpos p => S754_finite false p 0
  | Zneg p => S754_finite true p 0
  end.

(** What [JSON.parse] can return, and [undefined] for a property that is not
    there.  [JObject] lists the own properties of the object. *)
#[local] Set Warnings "-register-all".
Inductive JSValue : Type :=
| JUndefined
| JNull
| JBool (b : bool)
| JNumber (n : number)
| JString (s : string)
| JArray (elements : list JSValue)
| JObject (properties : list (string * JSValue)).

(** [ToBoolean]: what [if (v)], [!v] and [v || w] test. *)
Definition truthy (v : JSValue) : bool :=
  match v with
  | JUndefined | JNull => false
  | JBool b => b
  | JNumber (S754_zero _) | JNumber S754_nan => false
  | JNumber _ => true
  | JString EmptyString => false
  | JString _ => true
  | JArray _ | JObject _ => true
  end.

(** [v ?? w] *)
Definition nullish (v : JSValue) : bool :=
  match v with
  | JUndefined | JNull => true
  | _ => false
  end.

Fixpoint own_property (k : string) (props : list (string * JSValue)) : JSValue :=
  match props with
  | [] => JUndefined
  | (k', v) :: rest => if String.eqb k' k then v else own_property k rest
  end.

(** [data.k] for one of the five property names the program reads, none of
    which is a property of a prototype: reading a property of [null] (or of
    [undefined]) throws a [TypeError]; a number, a string, a boolean and an
    array have no such property. *)
Definition get (data : JSValue) (k : string) : Completion JSValue :=
  match data with
  | JUndefined | JNull => Abrupt
  | JObject props => Normal (own_property k props)
  | _ => Normal JUndefined
  end.

(** *** URLs *)

(** The two properties of a [URL] object the program reads. *)
Record URL : Type := {
  hostname : string;
  origin : string
}.

(** *** What the runtime provides *)

Record Runtime : Type := {
  (** [new URL(s)], which throws a [TypeError] when [s] does not parse *)
  new_URL : string -> Completion URL;
  (** [encodeURIComponent(s)], which throws a [URIError] on a lone surrogate *)
  encodeURIComponent : string -> Completion string;
  (** [ToString(v)], applied by a template literal to a substitution; it
      throws for an object whose [toString] and [valueOf] give no primitive *)
  ToString : JSValue -> Completion string
}.

(** *** [Map<string, V>]

    A JavaScript [Map] keeps its entries in insertion order and holds a key at
    most once. *)
Section MapOps.
Context {V : Type}.

Definition Map : Type := list (string * V).

Fixpoint Map_get (k : string) (m : Map) : option V :=
  match m with
  | [] => None
  | (k', v) :: rest => if String.eqb k' k then Some v else Map_get k rest
  end.

(** [m.set(k, v)]: a key that is there keeps its place. *)
Fixpoint Map_set (k : string) (v : V) (m : Map) : Map :=
  match m with
  | [] => [(k, v)]
  | (k', v') :: rest =>
      if String.eqb k' k then (k, v) :: rest else (k', v') :: Map_set k v rest
  end.

Fixpoint Map_delete (k : string) (m : Map) : Map :=
  match m with
  | [] => []
  | (k', v') :: rest =>
      if String.eqb k' k then rest else (k', v') :: Map_delete k rest
  end.

Definition Map_clear (m : Map) : Map := [].
Definition Map_size (m : Map) : Z := Z.of_nat (List.length m).
Definition Map_keys (m : Map) : list string := List.map fst m.
Definition Map_entries (m : Map) : list (string * V) := m.

(** The representation invariant: no key occurs twice. *)
Definition Map_ok (m : Map) : Prop := NoDup (Map_keys m).
End MapOps.
Arguments Map V : clear implicits.

End JS.

(** ** [src/types.ts] *)

Inductive Platform : Type := youtube | peertube | vimeo.

Record ThumbnailResult : Type := {
  url : JS.JSValue;
  width : JS.JSValue;
  height : JS.JSValue;
  platform : Platform;
  cached : bool
}.

Record CacheEntry : Type := {
  result : ThumbnailResult;
  timestamp : Z
}.

(** ** [src/platforms.ts] *)

Section Platforms.
Variable rt : JS.Runtime.

Definition detectPlatform (url : string) : Completion (option Platform) :=
  ctry
    (cbind (JS.new_URL rt url) (fun urlObj =>
     let hostname := JS.toLowerCase (JS.hostname urlObj) in
     if JS.includes hostname "youtube.com" || JS.includes hostname "youtu.be"
     then Normal (Some youtube)
     else if JS.includes hostname "vimeo.com"
     then Normal (Some vimeo)
     else if JS.includes url "/videos/watch/" || JS.includes url "/w/"
     then Normal (Some peertube)
     else Normal None))
    (Normal None).
End Platforms.

(** [[^&?/]] *)
Definition not_amp_query_slash (c : ascii) : bool :=
  negb (Ascii.eqb c "&" || Ascii.eqb c "?" || Ascii.eqb c "/").

Definition patterns : list JS.RegExp :=
  [ (* /(?:youtube\.com\/watch\?v=|youtu\.be\/|youtube\.com\/embed\/)([^&?/]+)/ *)
    {| JS.literals := ["youtube.com/watch?v="; "youtu.be/"; "youtube.com/embed/"];
       JS.class := not_amp_query_slash |};
    (* /youtube\.com\/v\/([^&?/]+)/ *)
    {| JS.literals := ["youtube.com/v/"]; JS.class := not_amp_query_slash |};
    (* /youtube\.com\/shorts\/([^&?/]+)/ *)
    {| JS.literals := ["youtube.com/shorts/"]; JS.class := not_amp_query_slash |} ].

(** The [for] loop of [extractYouTubeId] over the patterns.  [match?.[1]] is
    falsy when there is no match and when the group is the empty string. *)
Fixpoint first_match (url : string) (ps : list JS.RegExp) : option string :=
  match ps with
  | [] => None
  | pattern :: rest =>
      match JS.match_ url pattern with
      | Some (String c g) => Some (String c g)
      | _ => first_match url rest
      end
  end.

Definition extractYouTubeId (url : string) : option string :=
  first_match url patterns.

(** ** Asynchronous code: [fetch], [Date.now], [await], [try] / [catch] *)

(** The second argument of [fetch]. *)
Record RequestInit : Type := {
  method : option string;
  headers : list (string * string)
}.

Record Request : Type := {
  input : string;
  init : RequestInit
}.

(** What the program reads of a [Response]: [res.ok], and what awaiting
    [res.json()] gives, a parsed body or a rejection. *)
Record Response : Type := {
  ok : bool;
  json : Completion JS.JSValue
}.

(** What awaiting [fetch(...)] gives. *)
Inductive FetchResult : Type :=
| Rejected
| Resolved (res : Response).

Inductive Prog (A : Type) : Type :=
| Ret (a : A)
| Throw
| Fetch (req : Request) (k : FetchResult -> Prog A)
| DateNow (k : Z -> Prog A).
Arguments Ret {A} a.
Arguments Throw {A}.
Arguments Fetch {A} req k.
Arguments DateNow {A} k.

Fixpoint bind {A B} (p : Prog A) (f : A -> Prog B) : Prog B :=
  match p with
  | Ret a => f a
  | Throw => Throw
  | Fetch req k => Fetch req (fun r => bind (k r) f)
  | DateNow k => DateNow (fun t => bind (k t) f)
  end.

(** [try { body } catch { handler }] around code that awaits. *)
Fixpoint try_catch {A} (body handler : Prog A) : Prog A :=
  match body with
  | Ret a => Ret a
  | Throw => handler
  | Fetch req k => Fetch req (fun r => try_catch (k r) handler)
  | DateNow k => DateNow (fun t => try_catch (k t) handler)
  end.

Definition lift {A} (c : Completion A) : Prog A :=
  match c with
  | Normal a => Ret a
  | Abrupt => Throw
  end.

(** [await fetch(input, init)]: a rejected promise is thrown at the [await]. *)
Definition await_fetch (input : string) (init : RequestInit) : Prog Response :=
  Fetch {| input := input; init := init |}
        (fun r => match r with
                  | Rejected => Throw
                  | Resolved res => Ret res
                  end).

Definition Date_now : Prog Z := DateNow (fun t => Ret t).

Declare Scope prog_scope.
Delimit Scope prog_scope with prog.
Notation "x <- p ;; q" := (bind p (fun x => q))
  (at level 61, p at next level, right associativity) : prog_scope.
Local Open Scope prog_scope.

(** *** Running a program against an environment

    The environment answers each [fetch] and each [Date.now]; its state [W]
    lets an answer depend on everything that was asked before. *)
Record World (W : Type) : Type := {
  fetch : Request -> W -> FetchResult * W;
  now : W -> Z * W
}.
Arguments fetch {W} _ _ _.
Arguments now {W} _ _.

(** The outcome of a run: how the program completed, the requests it passed to
    [fetch], in order, and the environment it left. *)
Record Run (W A : Type) : Type := {
  completion : Completion A;
  requests : list Request;
  world : W
}.
Arguments completion {W A} _.
Arguments requests {W A} _.
Arguments world {W A} _.

Fixpoint run {W A} (env : World W) (p : Prog A) (w : W) : Run W A :=
  match p with
  | Ret a => {| completion := Normal a; requests := []; world := w |}
  | Throw => {| completion := Abrupt; requests := []; world := w |}
  | Fetch req k =>
      let '(r, w1) := fetch env req w in
      let out := run env (k r) w1 in
      {| completion := completion out;
         requests := req :: requests out;
         world := world out |}
  | DateNow k =>
      let '(t, w1) := now env w in
      run env (k t) w1
  end.

(** ** [src/fetchers.ts] *)

Definition HEAD : RequestInit := {| method := Some "HEAD"; headers := [] |}.
Definition accept_json : RequestInit :=
  {| method := None; headers := [("Accept", "application/json")] |}.

Record Thumb : Type := {
  thumb_url : string;
  thumb_width : Z;
  thumb_height : Z
}.

Definition thumbnails (videoId : string) : list Thumb :=
  [ {| thumb_url := "https://img.youtube.com/vi/" ++ videoId ++ "/maxresdefault.jpg";
       thumb_width := 1280; thumb_height := 720 |};
    {| thumb_url := "https://img.youtube.com/vi/" ++ videoId ++ "/hqdefault.jpg";
       thumb_width := 480; thumb_height := 360 |};
    {| thumb_url := "https://img.youtube.com/vi/" ++ videoId ++ "/mqdefault.jpg";
       thumb_width := 320; thumb_height := 180 |} ].

Definition youtube_result (thumb : Thumb) : ThumbnailResult :=
  {| url := JS.JString (thumb_url thumb);
     width := JS.JNumber (JS.number_of_Z (thumb_width thumb));
     height := JS.JNumber (JS.number_of_Z (thumb_height thumb));
     platform := youtube;
     cached := false |}.

(** The body of the [for] loop of [fetchYouTubeThumbnail] for one candidate:
    [Some r] is [return r], [None] goes on with the next candidate, after the
    [if] failed or through [catch { continue; }]. *)
Definition probe (thumb : Thumb) : Prog (option ThumbnailResult) :=
  try_catch
    (res <- await_fetch (thumb_url thumb) HEAD ;;
     if ok res then Ret (Some (youtube_result thumb)) else Ret None)
    (Ret None).

Fixpoint probe_all (thumbs : list Thumb) : Prog (option ThumbnailResult) :=
  match thumbs with
  | [] => Ret None
  | thumb :: rest =>
      r <- probe thumb ;;
      match r with
      | Some found => Ret (Some found)
      | None => probe_all rest
      end
  end.

Definition fetchYouTubeThumbnail (url : string) : Prog (option ThumbnailResult) :=
  match extractYouTubeId url with
  | None | Some EmptyString => Ret None
  | Some videoId => probe_all (thumbnails videoId)
  end.

(** [[a-zA-Z0-9-]] *)
Definition alnum_or_hyphen (c : ascii) : bool :=
  JS.is_lower c || JS.is_upper c || JS.is_digit c || Ascii.eqb c "-".

(** [/\/(?:videos\/watch|w)\/([a-zA-Z0-9-]+)/] *)
Definition uuid_pattern : JS.RegExp :=
  {| JS.literals := ["/videos/watch/"; "/w/"]; JS.class := alnum_or_hyphen |}.

Section Fetchers.
Variable rt : JS.Runtime.

Definition fetchPeerTubeThumbnail (url : string) : Prog (option ThumbnailResult) :=
  try_catch
    (urlObj <- lift (JS.new_URL rt url) ;;
     let instance := JS.origin urlObj in
     match JS.match_ url uuid_pattern with
     | None | Some EmptyString => Ret None
     | Some uuid =>
         let apiUrl := instance ++ "/api/v1/videos/" ++ uuid in
         res <- await_fetch apiUrl accept_json ;;
         if negb (ok res) then Ret None else
         data <- lift (json res) ;;
         first <- lift (JS.get data "thumbnailPath") ;;
         thumbnailPath <- (if JS.nullish first
                           then lift (JS.get data "previewPath")
                           else Ret first) ;;
         if negb (JS.truthy thumbnailPath) then Ret None else
         path <- lift (JS.ToString rt thumbnailPath) ;;
         Ret (Some {| url := JS.JString (instance ++ path);
                      width := JS.JNumber (JS.number_of_Z 560);
                      height := JS.JNumber (JS.number_of_Z 315);
                      platform := peertube;
                      cached := false |})
     end)
    (Ret None).

(** [v || d] *)
Definition or_default (v : JS.JSValue) (d : Z) : JS.JSValue :=
  if JS.truthy v then v else JS.JNumber (JS.number_of_Z d).

Definition fetchVimeoThumbnail (url : string) : Prog (option ThumbnailResult) :=
  try_catch
    (encoded <- lift (JS.encodeURIComponent rt url) ;;
     let oembedUrl := "https://vimeo.com/api/oembed.json?url=" ++ encoded in
     res <- await_fetch oembedUrl accept_json ;;
     if negb (ok res) then Ret None else
     data <- lift (json res) ;;
     thumbnail_url <- lift (JS.get data "thumbnail_url") ;;
     if negb (JS.truthy thumbnail_url) then Ret None else
     thumbnail_width <- lift (JS.get data "thumbnail_width") ;;
     thumbnail_height <- lift (JS.get data "thumbnail_height") ;;
     Ret (Some {| url := thumbnail_url;
                  width := or_default thumbnail_width 640;
                  height := or_default thumbnail_height 360;
                  platform := vimeo;
                  cached := false |}))
    (Ret None).

End Fetchers.

(** ** [src/cache.ts] *)

Definition CACHE_TTL : Z := 1000 * 60 * 60 * 24.

(** The state of the module: the [Map] that [thumbnailCache] is bound to, and
    the arrays that [getCacheStats] has allocated.  An array lives in [arrays]
    at its address; a caller that holds the object [getCacheStats] returned
    holds the address, not the elements. *)
Record Store : Type := {
  thumbnailCache : JS.Map CacheEntry;
  arrays : list (list string)
}.

Definition empty_store : Store := {| thumbnailCache := []; arrays := [] |}.

Definition with_cache (s : Store) (m : JS.Map CacheEntry) : Store :=
  {| thumbnailCache := m; arrays := arrays s |}.

(** [Array.from(iterable)]: a new array, at a new address. *)
Definition Array_from (elements : list string) (s : Store) : nat * Store :=
  (List.length (arrays s),
   {| thumbnailCache := thumbnailCache s; arrays := arrays s ++ [elements] |}).

(** The elements of the array at an address, as a caller reads them. *)
Definition Array_read (s : Store) (address : nat) : option (list string) :=
  nth_error (arrays s) address.

(** [{ ...r, cached: true }] *)
Definition spread_cached (r : ThumbnailResult) (c : bool) : ThumbnailResult :=
  {| url := url r; width := width r; height := height r;
     platform := platform r; cached := c |}.

Section Cache.
Variable rt : JS.Runtime.

(** The [switch] of [getVideoThumbnail]. *)
Definition dispatch (platform : Platform) (videoUrl : string)
  : Prog (option ThumbnailResult) :=
  match platform with
  | youtube => fetchYouTubeThumbnail videoUrl
  | peertube => fetchPeerTubeThumbnail rt videoUrl
  | vimeo => fetchVimeoThumbnail rt videoUrl
  end.

(** [getVideoThumbnail] from [const platform = detectPlatform(videoUrl)] on:
    what runs after a miss and after an expired entry was deleted. *)
Definition resolve (videoUrl : string) (s : Store)
  : Prog (option ThumbnailResult * Store) :=
  detected <- lift (detectPlatform rt videoUrl) ;;
  match detected with
  | None => Ret (None, s)
  | Some platform =>
      fetched <- dispatch platform videoUrl ;;
      match fetched with
      | Some r =>
          t <- Date_now ;;
          Ret (Some r,
               with_cache s (JS.Map_set videoUrl {| result := r; timestamp := t |}
                                        (thumbnailCache s)))
      | None => Ret (None, s)
      end
  end.

Definition getVideoThumbnail (videoUrl : string) (s : Store)
  : Prog (option ThumbnailResult * Store) :=
  match JS.Map_get videoUrl (thumbnailCache s) with
  | Some entry =>
      t <- Date_now ;;
      let age := t - timestamp entry in
      if age <? CACHE_TTL
      then Ret (Some (spread_cached (result entry) true), s)
      else resolve videoUrl
                   (with_cache s (JS.Map_delete videoUrl (thumbnailCache s)))
  | None => resolve videoUrl s
  end.

End Cache.

Definition clearThumbnailCache (s : Store) : Store :=
  with_cache s (JS.Map_clear (thumbnailCache s)).

(** The object [getCacheStats] returns: [size] is a number, [keys] is the
    address of an array. *)
Record CacheStats : Type := {
  size : Z;
  keys : nat
}.

Definition getCacheStats (s : Store) : CacheStats * Store :=
  let n := JS.Map_size (thumbnailCache s) in
  let '(address, s') := Array_from (JS.Map_keys (thumbnailCache s)) s in
  ({| size := n; keys := address |}, s').

(** One turn of the [for ... of thumbnailCache.entries()] loop of
    [pruneExpiredCache].  The loop deletes no entry but the one it is at, so
    the iterator reaches every entry that was there when the loop began. *)
Definition prune_step (t : Z) (acc : JS.Map CacheEntry * Z)
  (kv : string * CacheEntry) : JS.Map CacheEntry * Z :=
  let '(cache, removed) := acc in
  let '(key, entry) := kv in
  if t - timestamp entry >=? CACHE_TTL
  then (JS.Map_delete key cache, removed + 1)
  else (cache, removed).

Definition pruneExpiredCache (s : Store) : Prog (Z * Store) :=
  t <- Date_now ;;
  let '(cache, removed) :=
    fold_left (prune_step t) (JS.Map_entries (thumbnailCache s))
              (thumbnailCache s, 0) in
  Ret (removed, with_cache s cache).

(** *** Callers

    A caller of the module makes one of its four calls after the other. *)
Inductive Call : Type :=
| call_getVideoThumbnail (videoUrl : string)
| call_clearThumbnailCache
| call_getCacheStats
| call_pruneExpiredCache.

Definition perform (rt : JS.Runtime) (c : Call) (s : Store) : Prog Store :=
  match c with
  | call_getVideoThumbnail videoUrl =>
      out <- getVideoThumbnail rt videoUrl s ;; Ret (snd out)
  | call_clearThumbnailCache => Ret (clearThumbnailCache s)
  | call_getCacheStats => Ret (snd (getCacheStats s))
  | call_pruneExpiredCache =>
      out <- pruneExpiredCache s ;; Ret (snd out)
  end.

Fixpoint perform_all (rt : JS.Runtime) (cs : list Call) (s : Store) : Prog Store :=
  match cs with
  | [] => Ret s
  | c :: rest => s' <- perform rt c s ;; perform_all rt rest s'
  end.

(** ** An environment and a runtime for the examples *)

(** [fetch] answers from a list of prepared answers and rejects when the list
    is used up; [Date.now] reads a list of prepared times. *)
Record Script : Type := {
  answers : list FetchResult;
  times : list Z
}.

Definition scripted : World Script :=
  {| fetch := fun _ w =>
       match answers w with
       | [] => (Rejected, w)
       | r :: rest => (r, {| answers := rest; times := times w |})
       end;
     now := fun w =>
       match times w with
       | [] => (0, w)
       | t :: rest => (t, {| answers := answers w; times := rest |})
       end |}.

Definition host_char (c : ascii) : bool :=
  alnum_or_hyphen c || Ascii.eqb c ".".

Definition ends_host (s : string) : bool :=
  match s with
  | EmptyString => true
  | String c _ => Ascii.eqb c "/" || Ascii.eqb c "?" || Ascii.eqb c "#"
  end.

Definition parse_after (scheme rest : string) : Completion JS.URL :=
  match JS.run_of host_char rest with
  | EmptyString => Abrupt
  | host =>
      if ends_host (JS.drop (String.length host) rest)
      then Normal {| JS.hostname := JS.toLowerCase host;
                     JS.origin := scheme ++ JS.toLowerCase host |}
      else Abrupt
  end.

(** [new URL(s)] for [s] of the form [http://host] or [https://host], followed
    by nothing or by a path, a query or a fragment, where [host] is made of
    letters, digits, hyphens and dots.  Every other string is answered as not
    parsable, which is what the URL standard says of the strings without a
    scheme that the examples use. *)
Definition example_new_URL (s : string) : Completion JS.URL :=
  if JS.startsWith "https://" s then parse_after "https://" (JS.drop 8 s)
  else if JS.startsWith "http://" s then parse_after "http://" (JS.drop 7 s)
  else Abrupt.

Definition unreserved (c : ascii) : bool :=
  alnum_or_hyphen c ||
  existsb (Ascii.eqb c) ["_"; "."; "!"; "~"; "*"; "'"; "("; ")"]%char.

Definition hex_digit (n : nat) : ascii :=
  if (n <? 10)%nat then ascii_of_nat (48 + n) else ascii_of_nat (55 + n).

Fixpoint percent_encode (s : string) : string :=
  match s with
  | EmptyString => EmptyString
  | String c s' =>
      if unreserved c then String c (percent_encode s')
      else String "%" (String (hex_digit (nat_of_ascii c / 16))
                      (String (hex_digit (nat_of_ascii c mod 16))
                              (percent_encode s')))
  end.

(** [ToString] of a string, a boolean, [null], [undefined] and an object; a
    number and an array are answered with a throw, and no example has one
    where a template literal is. *)
Definition example_ToString (v : JS.JSValue) : Completion string :=
  match v with
  | JS.JString s => Normal s
  | JS.JBool true => Normal "true"
  | JS.JBool false => Normal "false"
  | JS.JNull => Normal "null"
  | JS.JUndefined => Normal "undefined"
  | JS.JObject props =>
      match JS.own_property "toString" props with
      | JS.JUndefined => Normal "[object Object]"
      | _ => Abrupt
      end
  | _ => Abrupt
  end.

Definition example_runtime : JS.Runtime :=
  {| JS.new_URL := example_new_URL;
     JS.encodeURIComponent := fun s => Normal (percent_encode s);
     JS.ToString := example_ToString |}.

(** ** What the properties are stated with *)

(** [needle] occurs in [s]. *)
Definition Substring (needle s : string) : Prop :=
  exists before after : string, s = (before ++ needle ++ after)%string.

(** Every character of [s] is in the class. *)
Fixpoint all_in (cls : ascii -> bool) (s : string) : bool :=
  match s with
  | EmptyString => true
  | String c s' => cls c && all_in cls s'
  end.

(** The detection algorithm of the specification, one rule for each of its
    steps; a later rule applies only when the earlier ones do not. *)
Inductive Detects (rt : JS.Runtime) (url : string) : option Platform -> Prop :=
| detects_unparsable :
    JS.new_URL rt url = Abrupt ->
    Detects rt url None
| detects_youtube urlObj :
    JS.new_URL rt url = Normal urlObj ->
    Substring "youtube.com" (JS.toLowerCase (JS.hostname urlObj)) \/
    Substring "youtu.be" (JS.toLowerCase (JS.hostname urlObj)) ->
    Detects rt url (Some youtube)
| detects_vimeo urlObj :
    JS.new_URL rt url = Normal urlObj ->
    ~ Substring "youtube.com" (JS.toLowerCase (JS.hostname urlObj)) ->
    ~ Substring "youtu.be" (JS.toLowerCase (JS.hostname urlObj)) ->
    Substring "vimeo.com" (JS.toLowerCase (JS.hostname urlObj)) ->
    Detects rt url (Some vimeo)
| detects_peertube urlObj :
    JS.new_URL rt url = Normal urlObj ->
    ~ Substring "youtube.com" (JS.toLowerCase (JS.hostname urlObj)) ->
    ~ Substring "youtu.be" (JS.toLowerCase (JS.hostname urlObj)) ->
    ~ Substring "vimeo.com" (JS.toLowerCase (JS.hostname urlObj)) ->
    Substring "/videos/watch/" url \/ Substring "/w/" url ->
    Detects rt url (Some peertube)
| detects_nothing urlObj :
    JS.new_URL rt url = Normal urlObj ->
    ~ Substring "youtube.com" (JS.toLowerCase (JS.hostname urlObj)) ->
    ~ Substring "youtu.be" (JS.toLowerCase (JS.hostname urlObj)) ->
    ~ Substring "vimeo.com" (JS.toLowerCase (JS.hostname urlObj)) ->
    ~ Substring "/videos/watch/" url ->
    ~ Substring "/w/" url ->
    Detects rt url None.

(** The request of a probe of [fetchYouTubeThumbnail]. *)
Definition head_request (thumb : Thumb) : Request :=
  {| input := thumb_url thumb; init := HEAD |}.

(** A probe succeeds when [fetch] resolves with an ok response. *)
Definition is_ok (r : FetchResult) : bool :=
  match r with
  | Rejected => false
  | Resolved res => ok res
  end.

(** The age test that [getVideoThumbnail] and [pruneExpiredCache] make of an
    entry at time [t]. *)
Definition expired (t : Z) (kv : string * CacheEntry) : bool :=
  t - timestamp (snd kv) >=? CACHE_TTL.

(** The states the module can be in: [thumbnailCache] is not exported, so the
    store is what calls of the four exported functions made of the empty
    [Map], whatever the environment answered.  A caller awaits a call before
    it makes the next one; calls that overlap are not modelled. *)
Inductive Reachable (rt : JS.Runtime) : Store -> Prop :=
| reachable_initial : Reachable rt empty_store
| reachable_call {W : Type} (env : World W) (w : W) (c : Call) (s s' : Store) :
    Reachable rt s ->
    completion (run env (perform rt c s) w) = Normal s' ->
    Reachable rt s'.

(** Every key of the cache is a string that [detectPlatform] recognises. *)
Definition keys_detected (rt : JS.Runtime) (s : Store) : Prop :=
  forall k, In k (JS.Map_keys (thumbnailCache s)) ->
            exists p, detectPlatform rt k = Normal (Some p).

(** Answers of [fetch] for the examples: a response to a HEAD request has no
    body to parse. *)
Definition answer_ok : FetchResult :=
  Resolved {| ok := true; json := Abrupt |}.
Definition answer_not_found : FetchResult :=
  Resolved {| ok := false; json := Abrupt |}.
Definition answer_json (body : JS.JSValue) : FetchResult :=
  Resolved {| ok := true; json := Normal body |}.

(** A YouTube page, a result for it, and two stores for the examples. *)
Definition example_video : string := "https://www.youtube.com/watch?v=abc123".

Definition example_hq : ThumbnailResult :=
  {| url := JS.JString "https://img.youtube.com/vi/abc123/hqdefault.jpg";
     width := JS.JNumber (JS.number_of_Z 480);
     height := JS.JNumber (JS.number_of_Z 360);
     platform := youtube;
     cached := false |}.

Definition example_store : Store :=
  {| thumbnailCache := [(example_video, {| result := example_hq; timestamp := 1000 |})];
     arrays := [] |}.

Definition example_two_entries : Store :=
  {| thumbnailCache :=
       [("https://youtu.be/old", {| result := example_hq; timestamp := 0 |});
        ("https://youtu.be/new", {| result := example_hq; timestamp := 1 |})];
     arrays := [] |}.

(** The literals of the three patterns of [extractYouTubeId], in the order in
    which the patterns list them. *)
Definition youtube_literals : list string :=
  ["youtube.com/watch?v="; "youtu.be/"; "youtube.com/embed/";
   "youtube.com/v/"; "youtube.com/shorts/"].

(** [s] is empty or begins with a character that is not in the class: a run of
    the class that is followed by [s] ends there. *)
Definition ends_run (cls : ascii -> bool) (s : string) : Prop :=
  match s with
  | EmptyString => True
  | String c _ => cls c = false
  end.

(** None of the literals occurs in [s]. *)
Definition without_literals (lits : list string) (s : string) : Prop :=
  forall lit, In lit lits -> ~ Substring lit s.

(** The requests a call for [videoUrl] may make: a HEAD request for a file
    under https://img.youtube.com/vi/, the oEmbed request of Vimeo for the
    encoded [videoUrl], or a request to /api/v1/videos/ at the origin of
    [videoUrl]. *)
Definition expected_request (rt : JS.Runtime) (videoUrl : string) (req : Request)
  : Prop :=
  (init req = HEAD /\
   JS.startsWith "https://img.youtube.com/vi/" (input req) = true) \/
  (init req = accept_json /\
   exists encoded,
     JS.encodeURIComponent rt videoUrl = Normal encoded /\
     input req = ("https://vimeo.com/api/oembed.json?url=" ++ encoded)%string) \/
  (init req = accept_json /\
   exists urlObj uuid,
     JS.new_URL rt videoUrl = Normal urlObj /\
     JS.match_ videoUrl uuid_pattern = Some uuid /\
     input req = (JS.origin urlObj ++ "/api/v1/videos/" ++ uuid)%string).

(** ** Strings and regular expressions *)

Lemma startsWith_spec (p s : string) :
  JS.startsWith p s = true <-> exists after, s = (p ++ after)%string.
Proof.
  revert s. induction p as [|a p IH]; intros s; simpl.
  - split; [intros _; exists s; reflexivity | reflexivity].
  - destruct s as [|b s]; simpl.
    + split; [discriminate | intros [after H]; discriminate].
    + rewrite andb_true_iff, Ascii.eqb_eq, IH. split.
      * intros [-> [after ->]]. exists after. reflexivity.
      * intros [after H]. injection H as -> ->. split; [reflexivity | eauto].
Qed.

Lemma includes_spec (s needle : string) :
  JS.includes s needle = true <-> Substring needle s.
Proof.
  unfold Substring. induction s as [|c s IH].
  - simpl. rewrite orb_false_r, startsWith_spec. split.
    + intros [after H]. exists EmptyString, after. exact H.
    + intros [[|b before] [after H]]; [eauto|discriminate].
  - cbn [JS.includes]. rewrite orb_true_iff, startsWith_spec, IH. split.
    + intros [[after H] | [before [after H]]].
      * exists EmptyString, after. exact H.
      * exists (String c before), after. simpl. rewrite H. reflexivity.
    + intros [[|b before] [after H]].
      * left. eauto.
      * right. simpl in H. injection H as _ H. eauto.
Qed.

Lemma includes_false (s needle : string) :
  JS.includes s needle = false <-> ~ Substring needle s.
Proof.
  rewrite <- includes_spec. destruct (JS.includes s needle).
  - split; [discriminate | intros H; elim H; reflexivity].
  - split; [intros _ H; discriminate | reflexivity].
Qed.

(** ** Running programs *)

Section Running.
Context {W : Type} (env : World W).

Lemma run_bind {A B} (p : Prog A) (f : A -> Prog B) (w : W) :
  run env (bind p f) w =
  match completion (run env p w) with
  | Normal a =>
      let out := run env (f a) (world (run env p w)) in
      {| completion := completion out;
         requests := requests (run env p w) ++ requests out;
         world := world out |}
  | Abrupt =>
      {| completion := Abrupt;
         requests := requests (run env p w);
         world := world (run env p w) |}
  end.
Proof.
  revert w. induction p as [a| |req k IH|k IH]; intros w; simpl.
  - destruct (run env (f a) w); reflexivity.
  - reflexivity.
  - destruct (fetch env req w) as [r w1]. simpl. rewrite IH.
    destruct (completion (run env (k r) w1)); reflexivity.
  - destruct (now env w) as [t w1]. apply IH.
Qed.

Lemma run_try_catch {A} (p h : Prog A) (w : W) :
  run env (try_catch p h) w =
  match completion (run env p w) with
  | Normal a => run env p w
  | Abrupt =>
      let out := run env h (world (run env p w)) in
      {| completion := completion out;
         requests := requests (run env p w) ++ requests out;
         world := world out |}
  end.
Proof.
  revert w. induction p as [a| |req k IH|k IH]; intros w; simpl.
  - reflexivity.
  - destruct (run env h w); reflexivity.
  - destruct (fetch env req w) as [r w1]. simpl. rewrite IH.
    destruct (run env (k r) w1) as [[a|] reqs w2]; reflexivity.
  - destruct (now env w) as [t w1]. apply IH.
Qed.

(** A [try] whose [catch] returns a value completes normally. *)
Lemma try_catch_returns {A} (p : Prog A) (v : A) (w : W) :
  exists r, completion (run env (try_catch p (Ret v)) w) = Normal r.
Proof.
  rewrite run_try_catch. destruct (completion (run env p w)) as [a|] eqn:E.
  - exists a. exact E.
  - exists v. reflexivity.
Qed.

Lemma probe_all_returns (thumbs : list Thumb) (w : W) :
  exists r, completion (run env (probe_all thumbs) w) = Normal r.
Proof.
  revert w. induction thumbs as [|thumb rest IH]; intros w; cbn [probe_all].
  - eexists. reflexivity.
  - rewrite run_bind.
    destruct (try_catch_returns
                (res <- await_fetch (thumb_url thumb) HEAD ;;
                 if ok res then Ret (Some (youtube_result thumb)) else Ret None)
                None w) as [r Hr].
    unfold probe. rewrite Hr. destruct r as [found|]; cbn.
    + eexists. reflexivity.
    + apply IH.
Qed.

End Running.

(** ** Platform detection *)

(** C2. [detectPlatform] completes normally on every string, and its value is
    the one the ordered rules give: none when the string does not parse,
    youtube when the lowercased hostname contains youtube.com or youtu.be,
    else vimeo when it contains vimeo.com, else peertube when the raw string
    contains /videos/watch/ or /w/, else none. *)
Theorem detectPlatform_first_match (rt : JS.Runtime) (url : string) :
  (exists p, detectPlatform rt url = Normal p) /\
  (forall p, detectPlatform rt url = Normal p <-> Detects rt url p).
Proof.
  unfold detectPlatform.
  destruct (JS.new_URL rt url) as [urlObj|] eqn:Hparse; simpl.
  2:{ split; [eauto|]. intros p. split.
      - intros [= <-]. apply detects_unparsable. exact Hparse.
      - intros H. inversion H; subst; congruence. }
  destruct (JS.includes (JS.toLowerCase (JS.hostname urlObj)) "youtube.com") eqn:Hy1;
    [|destruct (JS.includes (JS.toLowerCase (JS.hostname urlObj)) "youtu.be") eqn:Hy2;
      [|destruct (JS.includes (JS.toLowerCase (JS.hostname urlObj)) "vimeo.com") eqn:Hv;
        [|destruct (JS.includes url "/videos/watch/") eqn:Hp1;
          [|destruct (JS.includes url "/w/") eqn:Hp2]]]];
    simpl;
    repeat match goal with
           | H : JS.includes _ _ = true |- _ => apply includes_spec in H
           | H : JS.includes _ _ = false |- _ => apply includes_false in H
           end;
    (split; [eauto|]); intros p; (split; [intros [= <-]|intros H]).
  all: try solve [ econstructor; eauto ].
  all: inversion H; subst;
    repeat match goal with
           | Hu : JS.new_URL _ _ = Normal ?u |- _ =>
               rewrite Hparse in Hu; injection Hu as <-
           end;
    try reflexivity; try congruence; try tauto.
Qed.

(** ** What a regular expression matches *)

Lemma startsWith_drop (lit s : string) :
  JS.startsWith lit s = true -> s = (lit ++ JS.drop (String.length lit) s)%string.
Proof.
  revert s. induction lit as [|a lit IH]; intros [|b s]; simpl; try discriminate;
    try reflexivity.
  rewrite andb_true_iff, Ascii.eqb_eq. intros [-> H]. f_equal. apply IH, H.
Qed.

Lemma run_of_all_in (cls : ascii -> bool) (s : string) :
  all_in cls (JS.run_of cls s) = true.
Proof.
  induction s as [|c s IH]; simpl; [reflexivity|].
  destruct (cls c) eqn:E; simpl; [rewrite E; exact IH | reflexivity].
Qed.

(** The run is a prefix, and it is the longest one. *)
Lemma run_of_split (cls : ascii -> bool) (s : string) :
  exists after, s = (JS.run_of cls s ++ after)%string /\
                match after with
                | EmptyString => True
                | String c _ => cls c = false
                end.
Proof.
  induction s as [|c s [after [IH1 IH2]]]; simpl.
  - exists EmptyString. split; [reflexivity|exact I].
  - destruct (cls c) eqn:E.
    + exists after. split; [simpl; f_equal; exact IH1 | exact IH2].
    + exists (String c s). split; [reflexivity | exact E].
Qed.

Lemma append_assoc (a b c : string) :
  ((a ++ b) ++ c = a ++ b ++ c)%string.
Proof. induction a as [|x a IH]; simpl; [reflexivity | f_equal; exact IH]. Qed.

Lemma match_here_sound lits cls s g :
  JS.match_here lits cls s = Some g ->
  exists lit after,
    In lit lits /\ s = (lit ++ g ++ after)%string /\ g <> EmptyString /\
    all_in cls g = true /\
    match after with
    | EmptyString => True
    | String c _ => cls c = false
    end.
Proof.
  induction lits as [|lit rest IH]; simpl; [discriminate|].
  assert (Hrest : JS.match_here rest cls s = Some g ->
                  exists lit0 after, (lit = lit0 \/ In lit0 rest) /\
                    s = (lit0 ++ g ++ after)%string /\ g <> EmptyString /\
                    all_in cls g = true /\
                    match after with
                    | EmptyString => True
                    | String c _ => cls c = false
                    end).
  { intros H. destruct (IH H) as (l & a & Hin & Hrest). exists l, a. tauto. }
  destruct (JS.startsWith lit s) eqn:Hlit; [|exact Hrest].
  destruct (JS.run_of cls (JS.drop (String.length lit) s)) as [|c g'] eqn:Hrun;
    [exact Hrest|].
  intros [= <-].
  destruct (run_of_split cls (JS.drop (String.length lit) s)) as [after [H1 H2]].
  exists lit, after. repeat split.
  - left. reflexivity.
  - rewrite <- Hrun, <- H1. apply startsWith_drop, Hlit.
  - discriminate.
  - rewrite <- Hrun. apply run_of_all_in.
  - exact H2.
Qed.

Lemma match_here_complete lits cls s :
  JS.match_here lits cls s = None ->
  forall lit c after, In lit lits -> cls c = true ->
                      s <> (lit ++ String c after)%string.
Proof.
  induction lits as [|lit0 rest IH]; simpl; [tauto|].
  intros H lit c after [->|Hin] Hc Hs.
  - assert (Hlit : JS.startsWith lit s = true)
      by (apply startsWith_spec; eauto).
    rewrite Hlit in H.
    assert (Hd : JS.drop (String.length lit) s = String c after).
    { rewrite Hs. clear. induction lit; simpl; auto. }
    rewrite Hd in H. simpl in H. rewrite Hc in H. discriminate.
  - apply (IH (ltac:(destruct (JS.startsWith lit0 s);
                     [destruct (JS.run_of cls (JS.drop (String.length lit0) s));
                      [exact H|discriminate] | exact H])) lit c after Hin Hc Hs).
Qed.

(** A match: capture group 1 is a non-empty run of the class that follows one
    of the literals and is not followed by a character of the class. *)
Lemma match_sound s re g :
  JS.match_ s re = Some g ->
  exists before lit after,
    In lit (JS.literals re) /\ s = (before ++ lit ++ g ++ after)%string /\
    g <> EmptyString /\ all_in (JS.class re) g = true /\
    match after with
    | EmptyString => True
    | String c _ => JS.class re c = false
    end.
Proof.
  induction s as [|c s IH]; simpl.
  - destruct (JS.match_here (JS.literals re) (JS.class re) EmptyString) eqn:E;
      [|discriminate].
    intros [= <-]. destruct (match_here_sound _ _ _ _ E) as (lit & after & H).
    exists EmptyString, lit, after. exact H.
  - destruct (JS.match_here (JS.literals re) (JS.class re) (String c s)) eqn:E.
    + intros [= <-]. destruct (match_here_sound _ _ _ _ E) as (lit & after & H).
      exists EmptyString, lit, after. exact H.
    + intros H. destruct (IH H) as (before & lit & after & Hin & Hs & Hrest).
      exists (String c before), lit, after. split; [exact Hin|].
      split; [simpl; f_equal; exact Hs | exact Hrest].
Qed.

(** No match: nowhere in the string is a literal followed by a character of
    the class. *)
Lemma match_complete s re :
  JS.match_ s re = None ->
  forall before lit c after,
    In lit (JS.literals re) -> JS.class re c = true ->
    s <> (before ++ lit ++ String c after)%string.
Proof.
  induction s as [|x s IH]; simpl.
  - destruct (JS.match_here (JS.literals re) (JS.class re) EmptyString) eqn:E;
      [discriminate|].
    intros _ [|b before] lit c after Hin Hc; [|discriminate].
    apply (match_here_complete _ _ _ E lit c after Hin Hc).
  - destruct (JS.match_here (JS.literals re) (JS.class re) (String x s)) eqn:E;
      [discriminate|].
    intros H [|b before] lit c after Hin Hc.
    + apply (match_here_complete _ _ _ E lit c after Hin Hc).
    + simpl. intros [= _ Hs]. apply (IH H before lit c after Hin Hc Hs).
Qed.

Lemma first_match_nonempty url ps g :
  first_match url ps = Some g -> g <> EmptyString.
Proof.
  induction ps as [|p ps IH]; simpl; [discriminate|].
  destruct (JS.match_ url p) as [[|c g']|]; auto.
  intros [= <-]. discriminate.
Qed.

(** ** The fetchers *)

Section FetcherFacts.
Context {W : Type} (env : World W).

Lemma run_probe (thumb : Thumb) (w : W) :
  run env (probe thumb) w =
  {| completion :=
       Normal (if is_ok (fst (fetch env (head_request thumb) w))
               then Some (youtube_result thumb) else None);
     requests := [head_request thumb];
     world := snd (fetch env (head_request thumb) w) |}.
Proof.
  unfold probe, await_fetch, head_request. simpl.
  destruct (fetch env _ w) as [[|res] w1]; simpl; [reflexivity|].
  destruct (ok res); reflexivity.
Qed.

Lemma run_probe_all_cons (thumb : Thumb) (rest : list Thumb) (w : W) :
  run env (probe_all (thumb :: rest)) w =
  let a := fetch env (head_request thumb) w in
  if is_ok (fst a)
  then {| completion := Normal (Some (youtube_result thumb));
          requests := [head_request thumb];
          world := snd a |}
  else let out := run env (probe_all rest) (snd a) in
       {| completion := completion out;
          requests := head_request thumb :: requests out;
          world := world out |}.
Proof.
  cbn [probe_all]. rewrite run_bind, run_probe. cbn.
  destruct (is_ok (fst (fetch env (head_request thumb) w))); reflexivity.
Qed.

(** What a successful run of the probes returns, and how many requests any
    run makes. *)
Lemma probe_all_result (thumbs : list Thumb) (w : W) :
  (length (requests (run env (probe_all thumbs) w)) <= length thumbs)%nat /\
  forall r, completion (run env (probe_all thumbs) w) = Normal (Some r) ->
            cached r = false /\ platform r = youtube /\
            (1 <= length (requests (run env (probe_all thumbs) w)))%nat.
Proof.
  revert w. induction thumbs as [|thumb rest IH]; intros w.
  - simpl. split; [lia | discriminate].
  - rewrite run_probe_all_cons. cbn zeta.
    destruct (is_ok (fst (fetch env (head_request thumb) w))); cbn.
    + split; [lia|]. intros r [= <-]. repeat split; lia.
    + destruct (IH (snd (fetch env (head_request thumb) w))) as [IH1 IH2].
      split; [lia|]. intros r Hr. destruct (IH2 r Hr) as (? & ? & ?).
      repeat split; auto; lia.
Qed.

(** C3. Without an identifier [fetchYouTubeThumbnail] returns none and asks
    [fetch] nothing.  With one it sends HEAD requests for maxresdefault.jpg
    (1280x720), hqdefault.jpg (480x360) and mqdefault.jpg (320x180), in that
    order, stops at the first that resolves with an ok response and returns
    its descriptor, with platform youtube and cached false; a rejected
    [fetch] counts as a response that is not ok; when none of the three is
    ok it returns none. *)
Theorem fetchYouTubeThumbnail_probes (url : string) (w : W) :
  (extractYouTubeId url = None ->
   run env (fetchYouTubeThumbnail url) w =
   {| completion := Normal None; requests := []; world := w |}) /\
  (forall videoId, extractYouTubeId url = Some videoId ->
   let candidate name :=
     ("https://img.youtube.com/vi/" ++ videoId ++ name)%string in
   let head name :=
     {| input := candidate name;
        init := {| method := Some "HEAD"; headers := [] |} |} in
   let descriptor name w h :=
     Some {| url := JS.JString (candidate name);
             width := JS.JNumber (JS.number_of_Z w);
             height := JS.JNumber (JS.number_of_Z h);
             platform := youtube;
             cached := false |} in
   let a1 := fetch env (head "/maxresdefault.jpg") w in
   let a2 := fetch env (head "/hqdefault.jpg") (snd a1) in
   let a3 := fetch env (head "/mqdefault.jpg") (snd a2) in
   run env (fetchYouTubeThumbnail url) w =
   if is_ok (fst a1) then
     {| completion := Normal (descriptor "/maxresdefault.jpg" 1280 720);
        requests := [head "/maxresdefault.jpg"];
        world := snd a1 |}
   else if is_ok (fst a2) then
     {| completion := Normal (descriptor "/hqdefault.jpg" 480 360);
        requests := [head "/maxresdefault.jpg"; head "/hqdefault.jpg"];
        world := snd a2 |}
   else if is_ok (fst a3) then
     {| completion := Normal (descriptor "/mqdefault.jpg" 320 180);
        requests := [head "/maxresdefault.jpg"; head "/hqdefault.jpg"; head "/mqdefault.jpg"];
        world := snd a3 |}
   else
     {| completion := Normal None;
        requests := [head "/maxresdefault.jpg"; head "/hqdefault.jpg"; head "/mqdefault.jpg"];
        world := snd a3 |}).
Proof.
  unfold fetchYouTubeThumbnail. split.
  - intros ->. reflexivity.
  - intros videoId H. rewrite H.
    destruct videoId as [|c g];
      [exfalso; exact (first_match_nonempty _ _ _ H eq_refl)|].
    cbv zeta beta. unfold thumbnails.
    do 3 (rewrite run_probe_all_cons; cbv zeta).
    unfold head_request, youtube_result, HEAD.
    cbn [thumb_url thumb_width thumb_height].
    repeat match goal with
           | |- context [is_ok ?x] => destruct (is_ok x)
           end; reflexivity.
Qed.

Section WithRuntime.
Variable rt : JS.Runtime.

(** C8. Each of the three fetchers completes normally, with a result or none,
    for every string, every way [fetch] and [res.json()] answer (a rejection,
    a response that is not ok, any parsed body) and every behaviour of the
    runtime's [new URL], [encodeURIComponent] and [ToString]. *)
Theorem fetchers_never_throw (url : string) (w : W) :
  (exists r, completion (run env (fetchYouTubeThumbnail url) w) = Normal r) /\
  (exists r, completion (run env (fetchPeerTubeThumbnail rt url) w) = Normal r) /\
  (exists r, completion (run env (fetchVimeoThumbnail rt url) w) = Normal r).
Proof.
  split; [|split].
  - unfold fetchYouTubeThumbnail.
    destruct (extractYouTubeId url) as [[|c g]|];
      try (exists None; reflexivity).
    apply probe_all_returns.
  - apply try_catch_returns.
  - apply try_catch_returns.
Qed.

Lemma run_fetchPeerTubeThumbnail_result (url : string) (w : W) r :
  completion (run env (fetchPeerTubeThumbnail rt url) w) = Normal (Some r) ->
  cached r = false /\ platform r = peertube /\
  length (requests (run env (fetchPeerTubeThumbnail rt url) w)) = 1%nat.
Proof.
  unfold fetchPeerTubeThumbnail, await_fetch.
  destruct (JS.new_URL rt url) as [urlObj|]; simpl; [|discriminate].
  destruct (JS.match_ url uuid_pattern) as [[|c g]|]; simpl; try discriminate.
  destruct (fetch env _ w) as [[|res] w1]; simpl; [discriminate|].
  destruct (ok res); simpl; [|discriminate].
  destruct (json res) as [data|]; simpl; [|discriminate].
  destruct (JS.get data "thumbnailPath") as [v1|]; simpl; [|discriminate].
  destruct (JS.nullish v1); simpl.
  - destruct (JS.get data "previewPath") as [v2|]; simpl; [|discriminate].
    destruct (JS.truthy v2); simpl; [|discriminate].
    destruct (JS.ToString rt v2); simpl; [|discriminate].
    intros [= <-]. auto.
  - destruct (JS.truthy v1); simpl; [|discriminate].
    destruct (JS.ToString rt v1); simpl; [|discriminate].
    intros [= <-]. auto.
Qed.

Lemma run_fetchVimeoThumbnail_result (url : string) (w : W) r :
  completion (run env (fetchVimeoThumbnail rt url) w) = Normal (Some r) ->
  cached r = false /\ platform r = vimeo /\
  length (requests (run env (fetchVimeoThumbnail rt url) w)) = 1%nat.
Proof.
  unfold fetchVimeoThumbnail, await_fetch.
  destruct (JS.encodeURIComponent rt url) as [encoded|]; simpl; [|discriminate].
  destruct (fetch env _ w) as [[|res] w1]; simpl; [discriminate|].
  destruct (ok res); simpl; [|discriminate].
  destruct (json res) as [data|]; simpl; [|discriminate].
  destruct (JS.get data "thumbnail_url") as [v|]; simpl; [|discriminate].
  destruct (JS.truthy v); simpl; [|discriminate].
  destruct (JS.get data "thumbnail_width") as [tw|]; simpl; [|discriminate].
  destruct (JS.get data "thumbnail_height") as [th|]; simpl; [|discriminate].
  intros [= <-]. auto.
Qed.

End WithRuntime.
End FetcherFacts.

Section PeerTubeAndVimeo.
Context {W : Type} (env : World W) (rt : JS.Runtime).

(** C4, as amended. [fetchPeerTubeThumbnail] returns none and asks [fetch]
    nothing when [new URL] throws or when the regular expression finds no
    identifier in the raw string.  Otherwise it sends exactly one request, to
    the origin followed by /api/v1/videos/ and the identifier.  The identifier
    is the longest run of letters, digits and hyphens that follows the first
    /videos/watch/ or /w/ that has such a character after it; it is not empty
    and its length is not bounded. *)
Theorem fetchPeerTubeThumbnail_gate (url : string) (w : W) :
  (JS.new_URL rt url = Abrupt \/ JS.match_ url uuid_pattern = None ->
   run env (fetchPeerTubeThumbnail rt url) w =
   {| completion := Normal None; requests := []; world := w |}) /\
  (forall urlObj uuid,
     JS.new_URL rt url = Normal urlObj ->
     JS.match_ url uuid_pattern = Some uuid ->
     requests (run env (fetchPeerTubeThumbnail rt url) w) =
     [{| input := (JS.origin urlObj ++ "/api/v1/videos/" ++ uuid)%string;
         init := accept_json |}]) /\
  (forall uuid,
     JS.match_ url uuid_pattern = Some uuid ->
     uuid <> EmptyString /\ all_in alnum_or_hyphen uuid = true /\
     exists before lit after,
       (lit = "/videos/watch/" \/ lit = "/w/") /\
       url = (before ++ lit ++ uuid ++ after)%string /\
       match after with
       | EmptyString => True
       | String c _ => alnum_or_hyphen c = false
       end) /\
  (JS.match_ url uuid_pattern = None ->
   forall before lit c after,
     lit = "/videos/watch/" \/ lit = "/w/" ->
     alnum_or_hyphen c = true ->
     url <> (before ++ lit ++ String c after)%string).
Proof.
  split; [|split; [|split]].
  - unfold fetchPeerTubeThumbnail.
    destruct (JS.new_URL rt url) as [urlObj|]; simpl.
    + intros [H|H]; [discriminate | rewrite H; reflexivity].
    + reflexivity.
  - intros urlObj uuid Hparse Hmatch.
    destruct (match_sound _ _ _ Hmatch) as (_ & _ & _ & _ & _ & Hne & _).
    unfold fetchPeerTubeThumbnail, await_fetch. rewrite Hparse, Hmatch.
    destruct uuid as [|c g]; [contradiction|]. simpl.
    destruct (fetch env _ w) as [[|res] w1]; simpl; [reflexivity|].
    destruct (ok res); simpl; [|reflexivity].
    destruct (json res) as [data|]; simpl; [|reflexivity].
    destruct (JS.get data "thumbnailPath") as [v1|]; simpl; [|reflexivity].
    destruct (JS.nullish v1); simpl.
    + destruct (JS.get data "previewPath") as [v2|]; simpl; [|reflexivity].
      destruct (JS.truthy v2); simpl; [|reflexivity].
      destruct (JS.ToString rt v2); reflexivity.
    + destruct (JS.truthy v1); simpl; [|reflexivity].
      destruct (JS.ToString rt v1); reflexivity.
  - intros uuid Hmatch.
    destruct (match_sound _ _ _ Hmatch)
      as (before & lit & after & Hin & Hurl & Hne & Hall & Hafter).
    split; [exact Hne|]. split; [exact Hall|].
    exists before, lit, after. split; [|split; assumption].
    simpl in Hin. intuition.
  - intros Hmatch before lit c after Hlit Hc.
    apply (match_complete _ _ Hmatch); [|exact Hc].
    simpl. intuition.
Qed.

(** C7. When the oEmbed request resolves with an ok response whose body has a
    truthy [thumbnail_url], [fetchVimeoThumbnail] returns a descriptor with
    that value as url, platform vimeo, cached false, and for width and height
    the body's [thumbnail_width] and [thumbnail_height] where they are truthy
    and 640 and 360 where they are not: absent, [null], a zero of either
    sign, NaN, false or the empty string. *)
Theorem fetchVimeoThumbnail_defaults (url encoded : string) (w w1 : W)
        (res : Response) (data thumbnail_url : JS.JSValue) :
  JS.encodeURIComponent rt url = Normal encoded ->
  fetch env {| input := ("https://vimeo.com/api/oembed.json?url=" ++ encoded)%string;
               init := accept_json |} w = (Resolved res, w1) ->
  ok res = true ->
  json res = Normal data ->
  JS.get data "thumbnail_url" = Normal thumbnail_url ->
  JS.truthy thumbnail_url = true ->
  exists thumbnail_width thumbnail_height,
    JS.get data "thumbnail_width" = Normal thumbnail_width /\
    JS.get data "thumbnail_height" = Normal thumbnail_height /\
    completion (run env (fetchVimeoThumbnail rt url) w) =
    Normal (Some {| url := thumbnail_url;
                    width := if JS.truthy thumbnail_width then thumbnail_width
                             else JS.JNumber (JS.number_of_Z 640);
                    height := if JS.truthy thumbnail_height then thumbnail_height
                              else JS.JNumber (JS.number_of_Z 360);
                    platform := vimeo;
                    cached := false |}) /\
    JS.truthy JS.JUndefined = false /\
    (forall sign, JS.truthy (JS.JNumber (S754_zero sign)) = false).
Proof.
  intros Henc Hfetch Hok Hjson Hurl Htruthy.
  assert (Hobj : exists props, data = JS.JObject props).
  { destruct data; simpl in Hurl; try discriminate;
      try (injection Hurl as <-; discriminate). eauto. }
  destruct Hobj as [props ->].
  exists (JS.own_property "thumbnail_width" props),
         (JS.own_property "thumbnail_height" props).
  repeat split.
  unfold fetchVimeoThumbnail, await_fetch. rewrite Henc. simpl.
  simpl in Hfetch. rewrite Hfetch. simpl. rewrite Hok, Hjson. simpl.
  simpl in Hurl. injection Hurl as Hurl. rewrite Hurl, Htruthy. reflexivity.
Qed.

(** C10. In [fetchPeerTubeThumbnail] the path is [thumbnailPath] unless that is
    absent or [null], and only then [previewPath]; the result is none when the
    chosen value is falsy.  So a body whose [thumbnailPath] is the empty
    string gives none whatever its [previewPath] is. *)
Theorem fetchPeerTubeThumbnail_nullish_fallback (url uuid : string) (w w1 : W)
        (urlObj : JS.URL) (res : Response) (data first preview : JS.JSValue) :
  JS.new_URL rt url = Normal urlObj ->
  JS.match_ url uuid_pattern = Some uuid ->
  fetch env {| input := (JS.origin urlObj ++ "/api/v1/videos/" ++ uuid)%string;
               init := accept_json |} w = (Resolved res, w1) ->
  ok res = true ->
  json res = Normal data ->
  JS.get data "thumbnailPath" = Normal first ->
  JS.get data "previewPath" = Normal preview ->
  let chosen := if JS.nullish first then preview else first in
  completion (run env (fetchPeerTubeThumbnail rt url) w) =
  Normal (if JS.truthy chosen
          then match JS.ToString rt chosen with
               | Normal path =>
                   Some {| url := JS.JString (JS.origin urlObj ++ path);
                           width := JS.JNumber (JS.number_of_Z 560);
                           height := JS.JNumber (JS.number_of_Z 315);
                           platform := peertube;
                           cached := false |}
               | Abrupt => None
               end
          else None) /\
  (first = JS.JString EmptyString ->
   completion (run env (fetchPeerTubeThumbnail rt url) w) = Normal None).
Proof.
  intros Hparse Hmatch Hfetch Hok Hjson Hfirst Hpreview chosen.
  destruct (match_sound _ _ _ Hmatch) as (_ & _ & _ & _ & _ & Hne & _).
  assert (Hrun : completion (run env (fetchPeerTubeThumbnail rt url) w) =
                 Normal (if JS.truthy chosen
                         then match JS.ToString rt chosen with
                              | Normal path =>
                                  Some {| url := JS.JString (JS.origin urlObj ++ path);
                                          width := JS.JNumber (JS.number_of_Z 560);
                                          height := JS.JNumber (JS.number_of_Z 315);
                                          platform := peertube;
                                          cached := false |}
                              | Abrupt => None
                              end
                         else None)).
  { unfold fetchPeerTubeThumbnail, await_fetch. rewrite Hparse, Hmatch.
    destruct uuid as [|c g]; [contradiction|]. simpl.
    simpl in Hfetch. rewrite Hfetch. simpl. rewrite Hok, Hjson. simpl. rewrite Hfirst. simpl.
    subst chosen. destruct (JS.nullish first); simpl.
    - rewrite Hpreview. simpl. destruct (JS.truthy preview); simpl;
        [destruct (JS.ToString rt preview)|]; reflexivity.
    - destruct (JS.truthy first); simpl;
        [destruct (JS.ToString rt first)|]; reflexivity. }
  split; [exact Hrun|].
  intros ->. rewrite Hrun. reflexivity.
Qed.

End PeerTubeAndVimeo.

(** ** [Map] *)

Section MapFacts.
Context {V : Type}.
Implicit Types (m : JS.Map V) (k : string) (v : V).

Lemma Map_get_In k m v :
  JS.Map_get k m = Some v -> In k (JS.Map_keys m).
Proof.
  induction m as [|[k' v'] m IH]; simpl; [discriminate|].
  destruct (String.eqb k' k) eqn:E.
  - apply String.eqb_eq in E. auto.
  - auto.
Qed.

Lemma Map_get_not_In k m :
  ~ In k (JS.Map_keys m) -> JS.Map_get k m = None.
Proof.
  intros H. destruct (JS.Map_get k m) eqn:E; [|reflexivity].
  elim H. eapply Map_get_In, E.
Qed.

Lemma Map_get_set k v m :
  JS.Map_get k (JS.Map_set k v m) = Some v.
Proof.
  induction m as [|[k' v'] m IH]; simpl.
  - rewrite String.eqb_refl. reflexivity.
  - destruct (String.eqb k' k) eqn:E; simpl.
    + rewrite String.eqb_refl. reflexivity.
    + rewrite E. exact IH.
Qed.

Lemma Map_keys_set k v m k' :
  In k' (JS.Map_keys (JS.Map_set k v m)) <-> k' = k \/ In k' (JS.Map_keys m).
Proof.
  induction m as [|[k0 v0] m IH]; simpl.
  - intuition.
  - destruct (String.eqb k0 k) eqn:E; simpl.
    + apply String.eqb_eq in E. subst. intuition.
    + rewrite IH. intuition.
Qed.

Lemma Map_keys_delete k m k' :
  In k' (JS.Map_keys (JS.Map_delete k m)) -> In k' (JS.Map_keys m).
Proof.
  induction m as [|[k0 v0] m IH]; simpl; [auto|].
  destruct (String.eqb k0 k); simpl; intuition.
Qed.

Lemma Map_ok_set k v m : JS.Map_ok m -> JS.Map_ok (JS.Map_set k v m).
Proof.
  unfold JS.Map_ok. induction m as [|[k0 v0] m IH]; simpl; intros H.
  - constructor; [simpl; tauto | constructor].
  - inversion H as [|? ? Hnotin Hrest]; subst.
    destruct (String.eqb k0 k) eqn:E; simpl.
    + apply String.eqb_eq in E. subst. constructor; assumption.
    + constructor; [|apply IH, Hrest].
      rewrite Map_keys_set. intros [->|Hin]; [|contradiction].
      rewrite String.eqb_refl in E. discriminate.
Qed.

Lemma Map_ok_delete k m : JS.Map_ok m -> JS.Map_ok (JS.Map_delete k m).
Proof.
  unfold JS.Map_ok. induction m as [|[k0 v0] m IH]; simpl; intros H; [exact H|].
  inversion H as [|? ? Hnotin Hrest]; subst.
  destruct (String.eqb k0 k); simpl; [exact Hrest|].
  constructor; [|apply IH, Hrest].
  intros Hin. apply Hnotin. eapply Map_keys_delete, Hin.
Qed.

Lemma Map_get_delete k m :
  JS.Map_ok m -> JS.Map_get k (JS.Map_delete k m) = None.
Proof.
  unfold JS.Map_ok. induction m as [|[k0 v0] m IH]; simpl; intros H; [reflexivity|].
  inversion H as [|? ? Hnotin Hrest]; subst.
  destruct (String.eqb k0 k) eqn:E; simpl.
  - apply String.eqb_eq in E. subst. apply Map_get_not_In, Hnotin.
  - rewrite E. apply IH, Hrest.
Qed.

Lemma Map_delete_app k v (pre l : JS.Map V) :
  ~ In k (JS.Map_keys pre) ->
  JS.Map_delete k (pre ++ (k, v) :: l)%list = (pre ++ l)%list.
Proof.
  induction pre as [|[k0 v0] pre IH]; simpl; intros H.
  - rewrite String.eqb_refl. reflexivity.
  - destruct (String.eqb k0 k) eqn:E.
    + apply String.eqb_eq in E. tauto.
    + f_equal. apply IH. tauto.
Qed.

Lemma Map_get_filter (f : string * V -> bool) k m :
  JS.Map_ok m ->
  JS.Map_get k (filter f m) =
  match JS.Map_get k m with
  | Some v => if f (k, v) then Some v else None
  | None => None
  end.
Proof.
  unfold JS.Map_ok. induction m as [|[k0 v0] m IH]; simpl; intros H; [reflexivity|].
  inversion H as [|? ? Hnotin Hrest]; subst.
  destruct (String.eqb k0 k) eqn:E.
  - apply String.eqb_eq in E. subst.
    destruct (f (k, v0)); simpl.
    + rewrite String.eqb_refl. reflexivity.
    + rewrite (IH Hrest), (Map_get_not_In _ _ Hnotin). reflexivity.
  - destruct (f (k0, v0)); simpl; [rewrite E|]; apply IH, Hrest.
Qed.

End MapFacts.

(** ** Pruning *)

Lemma NoDup_keys_app_cons {V} (pre l : JS.Map V) k v :
  JS.Map_ok (pre ++ (k, v) :: l)%list ->
  ~ In k (JS.Map_keys pre) /\ JS.Map_ok (pre ++ l)%list.
Proof.
  unfold JS.Map_ok, JS.Map_keys. rewrite !map_app. simpl. intros H. split.
  - intros Hin. apply NoDup_remove_2 in H. apply H, in_or_app. auto.
  - apply NoDup_remove_1 in H. exact H.
Qed.

(** The loop of [pruneExpiredCache], started when the entries [pre] were seen
    and kept and the entries [l] are still to be visited. *)
Lemma prune_loop (t : Z) (l pre : JS.Map CacheEntry) (removed : Z) :
  JS.Map_ok (pre ++ l)%list ->
  fold_left (prune_step t) l ((pre ++ l)%list, removed) =
  ((pre ++ filter (fun kv => negb (expired t kv)) l)%list,
   removed + Z.of_nat (length (filter (expired t) l))).
Proof.
  revert pre removed. induction l as [|[k e] l IH]; intros pre removed Hok.
  - simpl. rewrite Z.add_0_r. reflexivity.
  - cbn [fold_left filter].
    change (prune_step t ((pre ++ (k, e) :: l)%list, removed) (k, e))
      with (if expired t (k, e)
            then (JS.Map_delete k (pre ++ (k, e) :: l)%list, removed + 1)
            else ((pre ++ (k, e) :: l)%list, removed)).
    destruct (expired t (k, e)) eqn:E; cbn [negb].
    + destruct (NoDup_keys_app_cons _ _ _ _ Hok) as [Hnotin Hok'].
      rewrite Map_delete_app by exact Hnotin.
      rewrite IH by exact Hok'. f_equal.
      cbn [length]. lia.
    + replace (pre ++ (k, e) :: l)%list with ((pre ++ [(k, e)]) ++ l)%list
        by (rewrite <- app_assoc; reflexivity).
      rewrite IH by (rewrite <- app_assoc; exact Hok).
      rewrite <- app_assoc. reflexivity.
Qed.

Lemma filter_length_split {A} (f : A -> bool) (l : list A) :
  (length l = length (filter f l) + length (filter (fun x => negb (f x)) l))%nat.
Proof.
  induction l as [|x l IH]; simpl; [reflexivity|].
  destruct (f x); simpl; lia.
Qed.

Lemma filter_none {A} (f : A -> bool) (l : list A) :
  filter f (filter (fun x => negb (f x)) l) = [].
Proof.
  induction l as [|x l IH]; simpl; [reflexivity|].
  destruct (f x) eqn:E; simpl; [|rewrite E]; exact IH.
Qed.

Lemma filter_idem {A} (f : A -> bool) (l : list A) :
  filter f (filter f l) = filter f l.
Proof.
  induction l as [|x l IH]; simpl; [reflexivity|].
  destruct (f x) eqn:E; simpl; [rewrite E; f_equal|]; exact IH.
Qed.

Lemma Map_ok_filter {V} (f : string * V -> bool) (m : JS.Map V) :
  JS.Map_ok m -> JS.Map_ok (filter f m).
Proof.
  unfold JS.Map_ok, JS.Map_keys.
  induction m as [|[k v] m IH]; simpl; intros H; [exact H|].
  inversion H as [|? ? Hnotin Hrest]; subst.
  destruct (f (k, v)); simpl; [|apply IH, Hrest].
  constructor; [|apply IH, Hrest].
  intros Hin. apply Hnotin. apply in_map_iff in Hin.
  destruct Hin as [[k' v'] [Hk Hin]]. apply filter_In in Hin.
  apply in_map_iff. exists (k', v'). tauto.
Qed.

Section Prune.
Context {W : Type} (env : World W).

Lemma run_pruneExpiredCache (s : Store) (w : W) :
  JS.Map_ok (thumbnailCache s) ->
  run env (pruneExpiredCache s) w =
  {| completion :=
       Normal (Z.of_nat (length (filter (expired (fst (now env w)))
                                        (thumbnailCache s))),
               with_cache s (filter (fun kv => negb (expired (fst (now env w)) kv))
                                    (thumbnailCache s)));
     requests := [];
     world := snd (now env w) |}.
Proof.
  intros Hok. unfold pruneExpiredCache, Date_now, JS.Map_entries.
  cbn [bind run]. destruct (now env w) as [t w1]. cbn [fst snd].
  pose proof (prune_loop t (thumbnailCache s) [] 0 Hok) as Hloop.
  cbn [app] in Hloop.
  change (@pair (JS.Map CacheEntry) Z (thumbnailCache s) 0)
    with (@pair (list (string * CacheEntry)) Z (thumbnailCache s) 0).
  rewrite Hloop. reflexivity.
Qed.

(** C5. At time [t], [pruneExpiredCache] leaves the entries whose age is below
    the TTL as they are and in their order, deletes every entry whose age is
    the TTL or more, an age of exactly the TTL included, and returns how many
    it deleted; on an empty store that is 0, and a second call at the same
    time on the store the first one left returns 0 and changes nothing. *)
Theorem pruneExpiredCache_exact (s : Store) (w w1 : W) (t : Z) :
  JS.Map_ok (thumbnailCache s) ->
  now env w = (t, w1) ->
  exists removed s',
    run env (pruneExpiredCache s) w =
    {| completion := Normal (removed, s'); requests := []; world := w1 |} /\
    s' = with_cache s (filter (fun kv => t - timestamp (snd kv) <? CACHE_TTL)
                              (thumbnailCache s)) /\
    (forall k e, JS.Map_get k (thumbnailCache s) = Some e ->
                 t - timestamp e >= CACHE_TTL ->
                 JS.Map_get k (thumbnailCache s') = None) /\
    (forall k e, JS.Map_get k (thumbnailCache s) = Some e ->
                 t - timestamp e < CACHE_TTL ->
                 JS.Map_get k (thumbnailCache s') = Some e) /\
    (forall k, JS.Map_get k (thumbnailCache s) = None ->
               JS.Map_get k (thumbnailCache s') = None) /\
    removed = Z.of_nat (length (filter (fun kv => t - timestamp (snd kv) >=? CACHE_TTL)
                                       (thumbnailCache s))) /\
    removed = JS.Map_size (thumbnailCache s) - JS.Map_size (thumbnailCache s') /\
    (thumbnailCache s = [] -> removed = 0) /\
    (forall w' w1', now env w' = (t, w1') ->
                    run env (pruneExpiredCache s') w' =
                    {| completion := Normal (0, s'); requests := [];
                       world := w1' |}).
Proof.
  intros Hok Hnow.
  assert (Hyoung : forall l : JS.Map CacheEntry,
             filter (fun kv => negb (expired t kv)) l =
             filter (fun kv => t - timestamp (snd kv) <? CACHE_TTL) l).
  { intros l. apply filter_ext. intros kv. unfold expired.
    rewrite Z.geb_leb, Z.leb_antisym, negb_involutive. reflexivity. }
  eexists. eexists. split; [|split; [reflexivity|]].
  { rewrite (run_pruneExpiredCache s w Hok), Hnow, Hyoung. reflexivity. }
  cbn [thumbnailCache with_cache fst snd].
  repeat split.
  - intros k e Hk Hage. rewrite (Map_get_filter _ _ _ Hok), Hk. cbn [snd].
    destruct (t - timestamp e <? CACHE_TTL) eqn:E; [|reflexivity].
    apply Z.ltb_lt in E. lia.
  - intros k e Hk Hage. rewrite (Map_get_filter _ _ _ Hok), Hk. cbn [snd].
    apply Z.ltb_lt in Hage. rewrite Hage. reflexivity.
  - intros k Hk. rewrite (Map_get_filter _ _ _ Hok), Hk. reflexivity.
  - unfold JS.Map_size. rewrite <- Hyoung.
    rewrite (filter_length_split (expired t) (thumbnailCache s)).
    unfold expired. lia.
  - intros ->. reflexivity.
  - intros w' w1' Hnow'.
    rewrite run_pruneExpiredCache
      by (cbn [thumbnailCache with_cache]; apply Map_ok_filter, Hok).
    rewrite Hnow'. cbn [fst snd thumbnailCache with_cache].
    rewrite <- Hyoung, filter_none, filter_idem. reflexivity.
Qed.

End Prune.

(** ** Resolution through the cache *)

Section CacheFacts.
Context {W : Type} (env : World W) (rt : JS.Runtime).

(** A fetcher's result says it is fresh and names the fetcher's platform, and
    it took at least one request and at most three to get it. *)
Lemma run_dispatch_result (p : Platform) (url : string) (w : W) r :
  completion (run env (dispatch rt p url) w) = Normal (Some r) ->
  cached r = false /\ platform r = p /\
  (1 <= length (requests (run env (dispatch rt p url) w)) <= 3)%nat /\
  (p <> youtube -> length (requests (run env (dispatch rt p url) w)) = 1%nat).
Proof.
  destruct p; cbn [dispatch]; intros H.
  - unfold fetchYouTubeThumbnail in *.
    destruct (extractYouTubeId url) as [[|c g]|]; try discriminate.
    destruct (probe_all_result env (thumbnails (String c g)) w) as [Hle Hres].
    destruct (Hres r H) as (Hc & Hp & Hge).
    cbn [thumbnails length] in Hle. repeat split; auto. congruence.
  - destruct (run_fetchPeerTubeThumbnail_result env rt url w r H) as (? & ? & Hlen).
    rewrite Hlen. repeat split; auto.
  - destruct (run_fetchVimeoThumbnail_result env rt url w r H) as (? & ? & Hlen).
    rewrite Hlen. repeat split; auto.
Qed.

Lemma run_resolve (url : string) (s : Store) (w : W) :
  run env (resolve rt url s) w =
  match detectPlatform rt url with
  | Abrupt => {| completion := Abrupt; requests := []; world := w |}
  | Normal None => {| completion := Normal (None, s); requests := []; world := w |}
  | Normal (Some p) =>
      let fetched := run env (dispatch rt p url) w in
      match completion fetched with
      | Abrupt =>
          {| completion := Abrupt; requests := requests fetched;
             world := world fetched |}
      | Normal None =>
          {| completion := Normal (None, s); requests := requests fetched;
             world := world fetched |}
      | Normal (Some r) =>
          {| completion :=
               Normal (Some r,
                       with_cache s
                         (JS.Map_set url
                            {| result := r;
                               timestamp := fst (now env (world fetched)) |}
                            (thumbnailCache s)));
             requests := requests fetched;
             world := snd (now env (world fetched)) |}
      end
  end.
Proof.
  unfold resolve.
  destruct (detectPlatform rt url) as [[p|]|]; cbn [lift bind run]; try reflexivity.
  rewrite run_bind. cbv zeta.
  destruct (completion (run env (dispatch rt p url) w)) as [[r|]|]; try reflexivity.
  - unfold Date_now. cbn [bind run].
    destruct (now env (world (run env (dispatch rt p url) w))) as [t w1].
    cbn. rewrite app_nil_r. reflexivity.
  - cbn. rewrite app_nil_r. reflexivity.
Qed.

Lemma run_getVideoThumbnail (url : string) (s : Store) (w : W) :
  run env (getVideoThumbnail rt url s) w =
  match JS.Map_get url (thumbnailCache s) with
  | Some entry =>
      if fst (now env w) - timestamp entry <? CACHE_TTL
      then {| completion := Normal (Some (spread_cached (result entry) true), s);
              requests := [];
              world := snd (now env w) |}
      else run env (resolve rt url
                      (with_cache s (JS.Map_delete url (thumbnailCache s))))
               (snd (now env w))
  | None => run env (resolve rt url s) w
  end.
Proof.
  unfold getVideoThumbnail.
  destruct (JS.Map_get url (thumbnailCache s)) as [entry|]; [|reflexivity].
  unfold Date_now. cbn [bind run]. destruct (now env w) as [t w1]. cbn [fst snd].
  destruct (t - timestamp entry <? CACHE_TTL); reflexivity.
Qed.

(** What a call leaves of the store: the arrays are as they were, and the
    cache is as it was, or without the key, or has the key set, which happens
    only for a string that [detectPlatform] recognises. *)
Lemma getVideoThumbnail_store (url : string) (s : Store) (w : W) r s' :
  completion (run env (getVideoThumbnail rt url s) w) = Normal (r, s') ->
  arrays s' = arrays s /\
  (thumbnailCache s' = thumbnailCache s \/
   thumbnailCache s' = JS.Map_delete url (thumbnailCache s) \/
   exists p e, detectPlatform rt url = Normal (Some p) /\
               (thumbnailCache s' = JS.Map_set url e (thumbnailCache s) \/
                thumbnailCache s' =
                JS.Map_set url e (JS.Map_delete url (thumbnailCache s)))).
Proof.
  rewrite run_getVideoThumbnail.
  assert (Hres : forall s0 w0,
             completion (run env (resolve rt url s0) w0) = Normal (r, s') ->
             arrays s' = arrays s0 /\
             (thumbnailCache s' = thumbnailCache s0 \/
              exists p e, detectPlatform rt url = Normal (Some p) /\
                          thumbnailCache s' = JS.Map_set url e (thumbnailCache s0))).
  { intros s0 w0. rewrite run_resolve.
    destruct (detectPlatform rt url) as [[p|]|]; cbn; try discriminate.
    - destruct (completion (run env (dispatch rt p url) w0)) as [[r0|]|]; cbn;
        try discriminate.
      + intros [= <- <-]. split; [reflexivity|]. right.
        do 2 eexists. split; reflexivity.
      + intros [= <- <-]. auto.
    - intros [= <- <-]. auto. }
  destruct (JS.Map_get url (thumbnailCache s)) as [entry|].
  - destruct (fst (now env w) - timestamp entry <? CACHE_TTL).
    + cbn. intros [= <- <-]. auto.
    + intros H. apply Hres in H. cbn [arrays thumbnailCache with_cache] in H.
      destruct H as [Ha [Hc|(p & e & Hp & Hc)]]; split; auto.
      right. right. eauto.
  - intros H. apply Hres in H. destruct H as [Ha [Hc|(p & e & Hp & Hc)]]; split; auto.
    right. right. eauto.
Qed.

End CacheFacts.

(** The calls keep the representation invariant of the [Map], put no key in
    the cache that [detectPlatform] does not recognise, and leave every array
    that was allocated as it is. *)
Lemma perform_invariant {W} (env : World W) (rt : JS.Runtime) (c : Call)
      (s s' : Store) (w : W) :
  completion (run env (perform rt c s) w) = Normal s' ->
  (JS.Map_ok (thumbnailCache s) -> JS.Map_ok (thumbnailCache s')) /\
  (keys_detected rt s -> keys_detected rt s') /\
  exists more, arrays s' = (arrays s ++ more)%list.
Proof.
  destruct c as [url| | |]; cbn [perform].
  - rewrite run_bind.
    destruct (completion (run env (getVideoThumbnail rt url s) w))
      as [[r s1]|] eqn:E; [|discriminate].
    cbn. intros [= <-].
    destruct (getVideoThumbnail_store env rt url s w r s1 E) as [Ha Hc].
    split; [|split].
    + intros Hok.
      destruct Hc as [->|[->|(p & e & _ & [->| ->])]];
        auto using Map_ok_set, Map_ok_delete.
    + unfold keys_detected. intros Hkeys k.
      destruct Hc as [->|[->|(p & e & Hp & [->| ->])]]; auto.
      * intros Hin. apply Hkeys. eapply Map_keys_delete, Hin.
      * rewrite Map_keys_set. intros [->|Hin]; eauto.
      * rewrite Map_keys_set. intros [->|Hin]; eauto.
        apply Hkeys. eapply Map_keys_delete, Hin.
    + exists []. rewrite app_nil_r. exact Ha.
  - cbn. intros [= <-]. split; [|split].
    + intros _. constructor.
    + intros _ k [].
    + exists []. rewrite app_nil_r. reflexivity.
  - cbn. intros [= <-]. split; [|split]; auto.
    exists [JS.Map_keys (thumbnailCache s)]. reflexivity.
  - rewrite run_bind. unfold pruneExpiredCache, Date_now. cbn [bind run].
    destruct (now env w) as [t w1].
    pose proof (fun pre => prune_loop t (thumbnailCache s) pre 0) as Hloop.
    unfold JS.Map_entries.
    destruct (fold_left (prune_step t) (thumbnailCache s) (thumbnailCache s, 0))
      as [cache removed] eqn:E.
    cbn. intros [= <-]. cbn [thumbnailCache arrays with_cache].
    split; [|split].
    + intros Hok. specialize (Hloop [] Hok). cbn [app] in Hloop.
      change (@pair (JS.Map CacheEntry) Z (thumbnailCache s) 0)
        with (@pair (list (string * CacheEntry)) Z (thumbnailCache s) 0) in E.
      rewrite Hloop in E. injection E as <- _. apply Map_ok_filter, Hok.
    + unfold keys_detected. cbn [thumbnailCache with_cache].
      intros Hkeys k Hin. apply Hkeys.
      clear -Hin E. revert cache removed E Hin.
      generalize (thumbnailCache s) at 2 3 as m.
      generalize 0 as n.
      induction (thumbnailCache s) as [|[k0 e0] l IH]; intros n m cache removed.
      * cbn. intros [= <- _]. auto.
      * cbn [fold_left prune_step].
        destruct (t - timestamp e0 >=? CACHE_TTL); intros E Hin.
        -- eapply Map_keys_delete, IH; eauto.
        -- eapply IH; eauto.
    + exists []. rewrite app_nil_r. reflexivity.
Qed.

Lemma reachable_invariant (rt : JS.Runtime) (s : Store) :
  Reachable rt s -> JS.Map_ok (thumbnailCache s) /\ keys_detected rt s.
Proof.
  induction 1 as [|W env w c s s' _ [IH1 IH2] Hrun].
  - split; [constructor | intros k []].
  - destruct (perform_invariant env rt c s s' w Hrun) as (H1 & H2 & _). auto.
Qed.

Lemma perform_all_arrays {W} (env : World W) (rt : JS.Runtime) (cs : list Call)
      (s s' : Store) (w : W) :
  completion (run env (perform_all rt cs s) w) = Normal s' ->
  exists more, arrays s' = (arrays s ++ more)%list.
Proof.
  revert s w. induction cs as [|c cs IH]; intros s w; cbn [perform_all].
  - cbn. intros [= <-]. exists []. rewrite app_nil_r. reflexivity.
  - rewrite run_bind.
    destruct (completion (run env (perform rt c s) w)) as [s1|] eqn:E;
      [|discriminate].
    cbn. intros H. destruct (IH _ _ H) as [more2 H2].
    destruct (perform_invariant env rt c s s1 w E) as (_ & _ & more1 & H1).
    exists (more1 ++ more2)%list. rewrite H2, H1, app_assoc. reflexivity.
Qed.

(** ** The cache *)

(** C6. In every state the module can be in, a call of [getVideoThumbnail]
    with a string on which [detectPlatform] gives none, because it does not
    parse or because no rule recognises it, returns none at once: it runs no
    fetcher, asks [fetch] nothing, does not read the clock and leaves the
    store as it is. *)
Theorem getVideoThumbnail_undetected (rt : JS.Runtime) (videoUrl : string)
        (s : Store) :
  Reachable rt s ->
  detectPlatform rt videoUrl = Normal None ->
  getVideoThumbnail rt videoUrl s = Ret (None, s) /\
  forall (W : Type) (env : World W) (w : W),
    run env (getVideoThumbnail rt videoUrl s) w =
    {| completion := Normal (None, s); requests := []; world := w |}.
Proof.
  intros Hreach Hdetect.
  destruct (reachable_invariant rt s Hreach) as [_ Hkeys].
  assert (Hget : JS.Map_get videoUrl (thumbnailCache s) = None).
  { apply Map_get_not_In. intros Hin. destruct (Hkeys _ Hin) as [p Hp].
    congruence. }
  assert (Hprog : getVideoThumbnail rt videoUrl s = Ret (None, s)).
  { unfold getVideoThumbnail, resolve. rewrite Hget, Hdetect. reflexivity. }
  split; [exact Hprog|]. intros W env w. rewrite Hprog. reflexivity.
Qed.

(** C9. [getCacheStats] returns the number of entries and the address of a
    new array that holds the keys; the cache itself is as before.  Whatever
    calls of the module follow, and whatever the environment answers them,
    the array at that address still holds the same keys. *)
Theorem getCacheStats_snapshot {W : Type} (env : World W) (rt : JS.Runtime)
        (s s2 : Store) (cs : list Call) (w : W) :
  completion (run env (perform_all rt cs (snd (getCacheStats s))) w) = Normal s2 ->
  size (fst (getCacheStats s)) = Z.of_nat (length (thumbnailCache s)) /\
  Array_read s (keys (fst (getCacheStats s))) = None /\
  Array_read (snd (getCacheStats s)) (keys (fst (getCacheStats s))) =
  Some (List.map fst (thumbnailCache s)) /\
  thumbnailCache (snd (getCacheStats s)) = thumbnailCache s /\
  Array_read s2 (keys (fst (getCacheStats s))) =
  Some (List.map fst (thumbnailCache s)).
Proof.
  intros Hrun. apply perform_all_arrays in Hrun. destruct Hrun as [more Hmore].
  unfold getCacheStats, Array_from, Array_read in *.
  cbn [fst snd size keys arrays thumbnailCache] in *.
  assert (Hnew : nth_error (arrays s ++ [JS.Map_keys (thumbnailCache s)])
                           (length (arrays s)) =
                 Some (List.map fst (thumbnailCache s))).
  { rewrite nth_error_app2 by lia. rewrite Nat.sub_diag. reflexivity. }
  repeat split.
  - apply nth_error_None. lia.
  - exact Hnew.
  - rewrite Hmore, nth_error_app1; [exact Hnew|].
    rewrite length_app. simpl. lia.
Qed.

Section TwoCalls.
Context {W : Type} (env : World W) (rt : JS.Runtime).

Lemma run_resolve_some (videoUrl : string) (s0 s1 : Store) (w0 : W) r1 :
  completion (run env (resolve rt videoUrl s0) w0) = Normal (Some r1, s1) ->
  exists p t,
    detectPlatform rt videoUrl = Normal (Some p) /\
    completion (run env (dispatch rt p videoUrl) w0) = Normal (Some r1) /\
    s1 = with_cache s0 (JS.Map_set videoUrl {| result := r1; timestamp := t |}
                                   (thumbnailCache s0)) /\
    requests (run env (resolve rt videoUrl s0) w0) =
    requests (run env (dispatch rt p videoUrl) w0) /\
    world (run env (resolve rt videoUrl s0) w0) =
    snd (now env (world (run env (dispatch rt p videoUrl) w0))) /\
    t = fst (now env (world (run env (dispatch rt p videoUrl) w0))).
Proof.
  rewrite run_resolve.
  destruct (detectPlatform rt videoUrl) as [[p|]|]; cbn; try discriminate.
  destruct (completion (run env (dispatch rt p videoUrl) w0)) as [[r|]|] eqn:E;
    cbn; try discriminate.
  intros [= <- <-]. exists p. eexists.
  repeat split; try reflexivity. exact E.
Qed.

(** C1, as amended.  An entry that is younger than the TTL is served: the
    call returns a copy of its result with cached true, asks [fetch] nothing
    and leaves the store.  An entry whose age is the TTL or more is deleted
    and the call goes on as for a key that is not there, with detection and
    the fetcher.  When a call that was not served from the cache returns a
    result and the next call for the same string comes before the TTL has
    passed, the second result has the url, width, height and platform of the
    first, the first has cached false and the second cached true, the second
    call asks [fetch] nothing, and the first asked once for Vimeo and
    PeerTube and one to three times for YouTube. *)
Theorem getVideoThumbnail_cache (videoUrl : string) (s : Store) (w : W) :
  JS.Map_ok (thumbnailCache s) ->
  (forall entry,
     JS.Map_get videoUrl (thumbnailCache s) = Some entry ->
     fst (now env w) - timestamp entry < CACHE_TTL ->
     run env (getVideoThumbnail rt videoUrl s) w =
     {| completion :=
          Normal (Some {| url := url (result entry);
                          width := width (result entry);
                          height := height (result entry);
                          platform := platform (result entry);
                          cached := true |}, s);
        requests := [];
        world := snd (now env w) |}) /\
  (forall entry,
     JS.Map_get videoUrl (thumbnailCache s) = Some entry ->
     fst (now env w) - timestamp entry >= CACHE_TTL ->
     JS.Map_get videoUrl (JS.Map_delete videoUrl (thumbnailCache s)) = None /\
     run env (getVideoThumbnail rt videoUrl s) w =
     run env (resolve rt videoUrl
                (with_cache s (JS.Map_delete videoUrl (thumbnailCache s))))
         (snd (now env w))) /\
  (forall r1 s1,
     (forall entry,
        JS.Map_get videoUrl (thumbnailCache s) = Some entry ->
        fst (now env w) - timestamp entry >= CACHE_TTL) ->
     completion (run env (getVideoThumbnail rt videoUrl s) w) =
     Normal (Some r1, s1) ->
     (forall entry,
        JS.Map_get videoUrl (thumbnailCache s1) = Some entry ->
        fst (now env (world (run env (getVideoThumbnail rt videoUrl s) w)))
        - timestamp entry < CACHE_TTL) ->
     exists r2,
       run env (getVideoThumbnail rt videoUrl s1)
           (world (run env (getVideoThumbnail rt videoUrl s) w)) =
       {| completion := Normal (Some r2, s1);
          requests := [];
          world := snd (now env (world (run env (getVideoThumbnail rt videoUrl s) w))) |} /\
       url r2 = url r1 /\ width r2 = width r1 /\ height r2 = height r1 /\
       platform r2 = platform r1 /\
       cached r1 = false /\ cached r2 = true /\
       Some (platform r1) = match detectPlatform rt videoUrl with
                            | Normal p => p
                            | Abrupt => None
                            end /\
       (1 <= length (requests (run env (getVideoThumbnail rt videoUrl s) w)) <= 3)%nat /\
       (platform r1 <> youtube ->
        length (requests (run env (getVideoThumbnail rt videoUrl s) w)) = 1%nat)).
Proof.
  intros Hok. split; [|split].
  - intros entry Hget Hage. rewrite run_getVideoThumbnail, Hget.
    apply Z.ltb_lt in Hage. rewrite Hage. reflexivity.
  - intros entry Hget Hage. split; [apply Map_get_delete, Hok|].
    rewrite run_getVideoThumbnail, Hget.
    destruct (fst (now env w) - timestamp entry <? CACHE_TTL) eqn:E;
      [apply Z.ltb_lt in E; lia | reflexivity].
  - intros r1 s1 Hmiss Hfirst Hsoon.
    assert (Hres : exists s0 w0,
               run env (getVideoThumbnail rt videoUrl s) w =
               run env (resolve rt videoUrl s0) w0).
    { rewrite run_getVideoThumbnail.
      destruct (JS.Map_get videoUrl (thumbnailCache s)) as [entry|] eqn:Hget;
        [|eauto].
      specialize (Hmiss entry eq_refl).
      destruct (fst (now env w) - timestamp entry <? CACHE_TTL) eqn:E;
        [apply Z.ltb_lt in E; lia | eauto]. }
    destruct Hres as (s0 & w0 & Hres). rewrite Hres in *.
    destruct (run_resolve_some _ _ _ _ _ Hfirst)
      as (p & t & Hp & Hd & -> & Hreq & Hworld & Ht).
    destruct (run_dispatch_result env rt p videoUrl w0 r1 Hd)
      as (Hc & Hplat & Hlen & Hone).
    assert (Hget1 : JS.Map_get videoUrl
                      (JS.Map_set videoUrl {| result := r1; timestamp := t |}
                                  (thumbnailCache s0)) =
                    Some {| result := r1; timestamp := t |})
      by apply Map_get_set.
    cbn [thumbnailCache with_cache] in Hsoon. specialize (Hsoon _ Hget1).
    cbn [timestamp] in Hsoon. apply Z.ltb_lt in Hsoon.
    exists (spread_cached r1 true).
    rewrite run_getVideoThumbnail. cbn [thumbnailCache with_cache].
    rewrite Hget1. cbn [timestamp result]. rewrite Hsoon.
    rewrite Hp, Hreq. repeat split; auto.
    + congruence.
    + apply Hlen.
    + apply Hlen.
    + intros Hny. apply Hone. congruence.
Qed.

End TwoCalls.

(** ** The theorems at concrete inputs *)

Lemma detectPlatform_first_match_witness :
  Detects example_runtime "https://pt.example.com/w/abc" (Some peertube) /\
  Detects example_runtime "not a url" None.
Proof.
  split.
  - apply (proj1 (proj2 (detectPlatform_first_match
                           example_runtime "https://pt.example.com/w/abc")
                        (Some peertube))).
    reflexivity.
  - apply (proj1 (proj2 (detectPlatform_first_match example_runtime "not a url")
                        None)).
    reflexivity.
Defined.

Lemma fetchYouTubeThumbnail_probes_witness :
  extractYouTubeId example_video = Some "abc123" /\
  run scripted (fetchYouTubeThumbnail example_video)
      {| answers := [answer_not_found; Rejected; answer_ok]; times := [] |} =
  {| completion :=
       Normal (Some {| url := JS.JString "https://img.youtube.com/vi/abc123/mqdefault.jpg";
                       width := JS.JNumber (JS.number_of_Z 320);
                       height := JS.JNumber (JS.number_of_Z 180);
                       platform := youtube;
                       cached := false |});
     requests :=
       [{| input := "https://img.youtube.com/vi/abc123/maxresdefault.jpg"; init := HEAD |};
        {| input := "https://img.youtube.com/vi/abc123/hqdefault.jpg"; init := HEAD |};
        {| input := "https://img.youtube.com/vi/abc123/mqdefault.jpg"; init := HEAD |}];
     world := {| answers := []; times := [] |} |}.
Proof.
  split; [reflexivity|].
  exact (proj2 (fetchYouTubeThumbnail_probes
                  scripted example_video
                  {| answers := [answer_not_found; Rejected; answer_ok];
                     times := [] |})
               "abc123" eq_refl).
Defined.

Lemma fetchPeerTubeThumbnail_gate_witness :
  run scripted (fetchPeerTubeThumbnail example_runtime "https://pt.example.com/about")
      {| answers := [answer_ok]; times := [] |} =
  {| completion := Normal None; requests := [];
     world := {| answers := [answer_ok]; times := [] |} |} /\
  requests (run scripted
              (fetchPeerTubeThumbnail example_runtime
                 "https://pt.example.com/videos/watch/uuid-1")
              {| answers := [answer_not_found]; times := [] |}) =
  [{| input := "https://pt.example.com/api/v1/videos/uuid-1"; init := accept_json |}].
Proof.
  split.
  - apply (proj1 (fetchPeerTubeThumbnail_gate
                    scripted example_runtime "https://pt.example.com/about"
                    {| answers := [answer_ok]; times := [] |})).
    right. reflexivity.
  - apply (proj1 (proj2 (fetchPeerTubeThumbnail_gate
                           scripted example_runtime
                           "https://pt.example.com/videos/watch/uuid-1"
                           {| answers := [answer_not_found]; times := [] |}))
                 {| JS.hostname := "pt.example.com";
                    JS.origin := "https://pt.example.com" |}
                 "uuid-1"); reflexivity.
Defined.

Lemma pruneExpiredCache_exact_witness :
  JS.Map_ok (thumbnailCache example_two_entries) /\
  exists removed s',
    run scripted (pruneExpiredCache example_two_entries)
        {| answers := []; times := [86400000] |} =
    {| completion := Normal (removed, s'); requests := [];
       world := {| answers := []; times := [] |} |} /\
    removed = 1 /\
    JS.Map_keys (thumbnailCache s') = ["https://youtu.be/new"].
Proof.
  assert (Hok : JS.Map_ok (thumbnailCache example_two_entries)).
  { repeat constructor; simpl; intuition discriminate. }
  split; [exact Hok|].
  destruct (pruneExpiredCache_exact
              scripted example_two_entries
              {| answers := []; times := [86400000] |}
              {| answers := []; times := [] |} 86400000 Hok eq_refl)
    as (removed & s' & Hrun & Hs' & _ & _ & _ & Hremoved & _).
  exists removed, s'. split; [exact Hrun|].
  rewrite Hremoved, Hs'. split; reflexivity.
Defined.

Lemma getVideoThumbnail_undetected_witness :
  Reachable example_runtime example_store /\
  detectPlatform example_runtime "https://example.com/video" = Normal None /\
  getVideoThumbnail example_runtime "https://example.com/video" example_store =
  Ret (None, example_store).
Proof.
  assert (Hreach : Reachable example_runtime example_store).
  { apply (reachable_call example_runtime scripted
             {| answers := [answer_not_found; answer_ok]; times := [1000] |}
             (call_getVideoThumbnail example_video) empty_store).
    - apply reachable_initial.
    - reflexivity. }
  split; [exact Hreach|]. split; [reflexivity|].
  exact (proj1 (getVideoThumbnail_undetected
                  example_runtime "https://example.com/video" example_store
                  Hreach eq_refl)).
Defined.

Lemma fetchVimeoThumbnail_defaults_witness :
  exists thumbnail_width thumbnail_height,
    JS.get (JS.JObject [("thumbnail_url", JS.JString "X");
                        ("thumbnail_width", JS.JNumber (S754_zero false))])
           "thumbnail_width" = Normal thumbnail_width /\
    JS.get (JS.JObject [("thumbnail_url", JS.JString "X");
                        ("thumbnail_width", JS.JNumber (S754_zero false))])
           "thumbnail_height" = Normal thumbnail_height /\
    completion
      (run scripted (fetchVimeoThumbnail example_runtime "https://vimeo.com/123456")
           {| answers :=
                [answer_json
                   (JS.JObject [("thumbnail_url", JS.JString "X");
                                ("thumbnail_width", JS.JNumber (S754_zero false))])];
              times := [] |}) =
    Normal (Some {| url := JS.JString "X";
                    width := if JS.truthy thumbnail_width then thumbnail_width
                             else JS.JNumber (JS.number_of_Z 640);
                    height := if JS.truthy thumbnail_height then thumbnail_height
                              else JS.JNumber (JS.number_of_Z 360);
                    platform := vimeo;
                    cached := false |}) /\
    JS.truthy JS.JUndefined = false /\
    (forall sign, JS.truthy (JS.JNumber (S754_zero sign)) = false).
Proof.
  exact (fetchVimeoThumbnail_defaults
           scripted example_runtime "https://vimeo.com/123456"
           "https%3A%2F%2Fvimeo.com%2F123456"
           {| answers :=
                [answer_json
                   (JS.JObject [("thumbnail_url", JS.JString "X");
                                ("thumbnail_width", JS.JNumber (S754_zero false))])];
              times := [] |}
           {| answers := []; times := [] |}
           {| ok := true;
              json := Normal (JS.JObject
                                [("thumbnail_url", JS.JString "X");
                                 ("thumbnail_width", JS.JNumber (S754_zero false))]) |}
           (JS.JObject [("thumbnail_url", JS.JString "X");
                        ("thumbnail_width", JS.JNumber (S754_zero false))])
           (JS.JString "X")
           eq_refl eq_refl eq_refl eq_refl eq_refl eq_refl).
Defined.

Lemma getCacheStats_snapshot_witness :
  size (fst (getCacheStats example_store)) = 1 /\
  Array_read (clearThumbnailCache (snd (getCacheStats example_store)))
             (keys (fst (getCacheStats example_store))) =
  Some [example_video].
Proof.
  destruct (getCacheStats_snapshot
              scripted example_runtime example_store
              (clearThumbnailCache (snd (getCacheStats example_store)))
              [call_clearThumbnailCache]
              {| answers := []; times := [] |} eq_refl)
    as (Hsize & _ & _ & _ & Hread).
  split; [exact Hsize | exact Hread].
Defined.

Lemma fetchPeerTubeThumbnail_nullish_fallback_witness :
  completion
    (run scripted
       (fetchPeerTubeThumbnail example_runtime "https://pt.example.com/w/abc")
       {| answers :=
            [answer_json (JS.JObject [("thumbnailPath", JS.JString EmptyString);
                                      ("previewPath", JS.JString "/p.jpg")])];
          times := [] |}) = Normal None.
Proof.
  apply (proj2 (fetchPeerTubeThumbnail_nullish_fallback
                  scripted example_runtime "https://pt.example.com/w/abc" "abc"
                  {| answers :=
                       [answer_json (JS.JObject [("thumbnailPath", JS.JString EmptyString);
                                                 ("previewPath", JS.JString "/p.jpg")])];
                     times := [] |}
                  {| answers := []; times := [] |}
                  {| JS.hostname := "pt.example.com";
                     JS.origin := "https://pt.example.com" |}
                  {| ok := true;
                     json := Normal (JS.JObject
                                       [("thumbnailPath", JS.JString EmptyString);
                                        ("previewPath", JS.JString "/p.jpg")]) |}
                  (JS.JObject [("thumbnailPath", JS.JString EmptyString);
                               ("previewPath", JS.JString "/p.jpg")])
                  (JS.JString EmptyString) (JS.JString "/p.jpg")
                  eq_refl eq_refl eq_refl eq_refl eq_refl eq_refl eq_refl)).
  reflexivity.
Defined.

Lemma getVideoThumbnail_cache_witness :
  exists r2,
    run scripted (getVideoThumbnail example_runtime example_video example_store)
        {| answers := []; times := [1000] |} =
    {| completion := Normal (Some r2, example_store); requests := [];
       world := {| answers := []; times := [] |} |} /\
    url r2 = url example_hq /\ width r2 = width example_hq /\
    height r2 = height example_hq /\ platform r2 = platform example_hq /\
    cached example_hq = false /\ cached r2 = true.
Proof.
  destruct (proj2 (proj2 (getVideoThumbnail_cache
                            scripted example_runtime example_video empty_store
                            {| answers := [answer_not_found; answer_ok];
                               times := [1000; 1000] |}
                            (NoDup_nil string)))
                  example_hq example_store)
    as (r2 & Hrun & Hu & Hw & Hh & Hp & Hc1 & Hc2 & _).
  - intros entry H. discriminate H.
  - reflexivity.
  - intros entry H. injection H as <-. reflexivity.
  - exists r2. repeat split; assumption.
Defined.

(** ** Where the specification says more than the code does *)

(** C1. The first probe of a YouTube video answers 404 and the second answers
    200: two calls in a row return the same thumbnail, first with cached false
    and then with cached true, and [fetch] was called twice, not once. *)
Lemma getVideoThumbnail_two_probes_then_hit :
  run scripted
      (first <- getVideoThumbnail example_runtime example_video empty_store ;;
       second <- getVideoThumbnail example_runtime example_video (snd first) ;;
       Ret (fst first, fst second))
      {| answers := [answer_not_found; answer_ok]; times := [1000; 1000] |} =
  {| completion :=
       Normal (Some example_hq, Some (spread_cached example_hq true));
     requests :=
       [{| input := "https://img.youtube.com/vi/abc123/maxresdefault.jpg"; init := HEAD |};
        {| input := "https://img.youtube.com/vi/abc123/hqdefault.jpg"; init := HEAD |}];
     world := {| answers := []; times := [] |} |} /\
  length
    (requests
       (run scripted
          (first <- getVideoThumbnail example_runtime example_video empty_store ;;
           second <- getVideoThumbnail example_runtime example_video (snd first) ;;
           Ret (fst first, fst second))
          {| answers := [answer_not_found; answer_ok]; times := [1000; 1000] |}))
  <> 1%nat.
Proof. split; [vm_compute; reflexivity | vm_compute; discriminate]. Qed.

(** C4. An identifier of 37 characters is extracted whole and the request is
    sent: the list of requests is not empty. *)
Lemma fetchPeerTubeThumbnail_long_identifier :
  (36 < String.length "0123456789-0123456789-0123456789-abcd")%nat /\
  JS.new_URL example_runtime
             "https://pt.example.com/w/0123456789-0123456789-0123456789-abcd" =
  Normal {| JS.hostname := "pt.example.com"; JS.origin := "https://pt.example.com" |} /\
  JS.match_ "https://pt.example.com/w/0123456789-0123456789-0123456789-abcd"
            uuid_pattern = Some "0123456789-0123456789-0123456789-abcd" /\
  run scripted
      (fetchPeerTubeThumbnail example_runtime
         "https://pt.example.com/w/0123456789-0123456789-0123456789-abcd")
      {| answers := [answer_json (JS.JObject [("thumbnailPath", JS.JString "/t.jpg")])];
         times := [] |} =
  {| completion :=
       Normal (Some {| url := JS.JString "https://pt.example.com/t.jpg";
                       width := JS.JNumber (JS.number_of_Z 560);
                       height := JS.JNumber (JS.number_of_Z 315);
                       platform := peertube;
                       cached := false |});
     requests :=
       [{| input := "https://pt.example.com/api/v1/videos/0123456789-0123456789-0123456789-abcd";
           init := accept_json |}];
     world := {| answers := []; times := [] |} |} /\
  requests
    (run scripted
       (fetchPeerTubeThumbnail example_runtime
          "https://pt.example.com/w/0123456789-0123456789-0123456789-abcd")
       {| answers := [answer_json (JS.JObject [("thumbnailPath", JS.JString "/t.jpg")])];
          times := [] |}) <> [].
Proof.
  split; [cbn; lia|].
  split; [reflexivity|].
  split; [reflexivity|].
  split; [vm_compute; reflexivity | vm_compute; discriminate].
Qed.

(** ** Identifiers of YouTube videos *)

Lemma first_match_sound url ps g :
  first_match url ps = Some g ->
  exists p, In p ps /\ JS.match_ url p = Some g.
Proof.
  induction ps as [|p ps IH]; simpl; [discriminate|].
  destruct (JS.match_ url p) as [[|c g']|] eqn:E.
  - intros H. destruct (IH H) as (q & Hq & Hm). eauto.
  - intros [= <-]. eauto.
  - intros H. destruct (IH H) as (q & Hq & Hm). eauto.
Qed.

Lemma first_match_none url ps :
  first_match url ps = None ->
  forall p, In p ps -> JS.match_ url p = None.
Proof.
  induction ps as [|p ps IH]; simpl; [tauto|].
  destruct (JS.match_ url p) as [[|c g']|] eqn:E; try discriminate.
  - destruct (match_sound _ _ _ E) as (_ & _ & _ & _ & _ & Hne & _).
    contradiction.
  - intros H q [<-|Hq]; auto.
Qed.

Lemma patterns_literals p lit :
  In p patterns -> In lit (JS.literals p) ->
  In lit youtube_literals /\ JS.class p = not_amp_query_slash.
Proof.
  unfold patterns, youtube_literals.
  intros [<-|[<-|[<-|[]]]]; simpl; intuition.
Qed.

Lemma youtube_literals_pattern lit :
  In lit youtube_literals ->
  exists p, In p patterns /\ In lit (JS.literals p) /\
            JS.class p = not_amp_query_slash.
Proof.
  intros Hlit.
  assert (Hcase : In lit ["youtube.com/watch?v="; "youtu.be/"; "youtube.com/embed/"]
                  \/ lit = "youtube.com/v/" \/ lit = "youtube.com/shorts/").
  { unfold youtube_literals in Hlit. simpl in Hlit. simpl. intuition. }
  destruct Hcase as [H|[->| ->]].
  - exists (nth 0 patterns {| JS.literals := []; JS.class := not_amp_query_slash |}).
    split; [left; reflexivity|]. split; [exact H | reflexivity].
  - exists (nth 1 patterns {| JS.literals := []; JS.class := not_amp_query_slash |}).
    split; [right; left; reflexivity|]. split; [left; reflexivity | reflexivity].
  - exists (nth 2 patterns {| JS.literals := []; JS.class := not_amp_query_slash |}).
    split; [right; right; left; reflexivity|].
    split; [left; reflexivity | reflexivity].
Qed.

(** X1. An identifier that [extractYouTubeId] returns is not empty, holds none
    of the characters ampersand, question mark and slash, stands in the URL
    right after one of the five literals, and is followed there by the end of
    the URL or by one of those three characters. *)
Theorem extractYouTubeId_sound (url id : string) :
  extractYouTubeId url = Some id ->
  id <> EmptyString /\
  all_in not_amp_query_slash id = true /\
  exists before lit after,
    In lit youtube_literals /\
    url = (before ++ lit ++ id ++ after)%string /\
    ends_run not_amp_query_slash after.
Proof.
  unfold extractYouTubeId. intros H.
  destruct (first_match_sound _ _ _ H) as (p & Hp & Hm).
  destruct (match_sound _ _ _ Hm)
    as (before & lit & after & Hin & Hurl & Hne & Hall & Hafter).
  destruct (patterns_literals p lit Hp Hin) as [Hlit Hcls].
  rewrite Hcls in *.
  split; [exact Hne|]. split; [exact Hall|].
  exists before, lit, after. auto.
Qed.

(** X2. [extractYouTubeId] returns none exactly when nowhere in the URL one of
    the five literals is followed by a character other than ampersand,
    question mark and slash. *)
Theorem extractYouTubeId_none_iff (url : string) :
  extractYouTubeId url = None <->
  forall before lit c after,
    In lit youtube_literals ->
    not_amp_query_slash c = true ->
    url <> (before ++ lit ++ String c after)%string.
Proof.
  unfold extractYouTubeId. split.
  - intros H before lit c after Hlit Hc.
    destruct (youtube_literals_pattern lit Hlit) as (p & Hp & Hin & Hcls).
    apply (match_complete url p (first_match_none _ _ H p Hp)); [exact Hin|].
    rewrite Hcls. exact Hc.
  - intros Hnone. destruct (first_match url patterns) as [id|] eqn:H;
      [|reflexivity].
    exfalso.
    destruct (first_match_sound _ _ _ H) as (p & Hp & Hm).
    destruct (match_sound _ _ _ Hm)
      as (before & lit & after & Hin & Hurl & Hne & Hall & _).
    destruct (patterns_literals p lit Hp Hin) as [Hlit Hcls].
    rewrite Hcls in Hall.
    destruct id as [|c g]; [contradiction|].
    simpl in Hall. apply andb_true_iff in Hall. destruct Hall as [Hc _].
    apply (Hnone before lit c (g ++ after)%string Hlit Hc). exact Hurl.
Qed.

Lemma run_of_app (cls : ascii -> bool) (id after : string) :
  all_in cls id = true -> ends_run cls after ->
  JS.run_of cls (id ++ after) = id.
Proof.
  intros Hall Hafter. induction id as [|c id IH]; simpl in *.
  - destruct after as [|c after]; simpl in *; [reflexivity|].
    rewrite Hafter. reflexivity.
  - apply andb_true_iff in Hall. destruct Hall as [Hc Hall].
    rewrite Hc, (IH Hall). reflexivity.
Qed.

Lemma match_without_literals (s : string) (re : JS.RegExp) :
  without_literals (JS.literals re) s -> JS.match_ s re = None.
Proof.
  intros Hnone. destruct (JS.match_ s re) as [g|] eqn:E; [|reflexivity].
  destruct (match_sound _ _ _ E) as (before & lit & after & Hin & Hs & _).
  elim (Hnone lit Hin). exists before, (g ++ after)%string. exact Hs.
Qed.

(** X3. Building a URL and extracting the identifier again: for an identifier
    that is not empty and holds no ampersand, question mark or slash, followed
    by nothing or by one of these characters, [extractYouTubeId] returns the
    identifier from the watch, youtu.be and embed forms of the URL, and from
    the /v/ and /shorts/ forms when the literals of the patterns that are
    tried before do not occur in what follows the literal. *)
Theorem extractYouTubeId_roundtrip (id after : string) :
  id <> EmptyString ->
  all_in not_amp_query_slash id = true ->
  ends_run not_amp_query_slash after ->
  extractYouTubeId ("https://www.youtube.com/watch?v=" ++ id ++ after) = Some id /\
  extractYouTubeId ("https://youtu.be/" ++ id ++ after) = Some id /\
  extractYouTubeId ("https://www.youtube.com/embed/" ++ id ++ after) = Some id /\
  (without_literals ["youtube.com/watch?v="; "youtu.be/"; "youtube.com/embed/"]
                    (id ++ after) ->
   extractYouTubeId ("https://www.youtube.com/v/" ++ id ++ after) = Some id) /\
  (without_literals ["youtube.com/watch?v="; "youtu.be/"; "youtube.com/embed/";
                     "youtube.com/v/"]
                    (id ++ after) ->
   extractYouTubeId ("https://www.youtube.com/shorts/" ++ id ++ after) = Some id).
Proof.
  intros Hne Hall Hafter.
  pose proof (run_of_app _ _ _ Hall Hafter) as Hrun.
  unfold extractYouTubeId, patterns.
  split; [|split; [|split; [|split]]].
  - cbn. rewrite Hrun. destruct id; [contradiction | reflexivity].
  - cbn. rewrite Hrun. destruct id; [contradiction | reflexivity].
  - cbn. rewrite Hrun. destruct id; [contradiction | reflexivity].
  - intros Hnone. cbn [first_match].
    assert (H1 : JS.match_ ("https://www.youtube.com/v/" ++ id ++ after)
                   {| JS.literals := ["youtube.com/watch?v="; "youtu.be/";
                                      "youtube.com/embed/"];
                      JS.class := not_amp_query_slash |} = None).
    { cbn. apply (match_without_literals (id ++ after)). exact Hnone. }
    rewrite H1. cbn. rewrite Hrun. destruct id; [contradiction | reflexivity].
  - intros Hnone. cbn [first_match].
    assert (H1 : JS.match_ ("https://www.youtube.com/shorts/" ++ id ++ after)
                   {| JS.literals := ["youtube.com/watch?v="; "youtu.be/";
                                      "youtube.com/embed/"];
                      JS.class := not_amp_query_slash |} = None).
    { cbn. apply (match_without_literals (id ++ after)).
      intros lit Hlit. apply Hnone. simpl in *. tauto. }
    assert (H2 : JS.match_ ("https://www.youtube.com/shorts/" ++ id ++ after)
                   {| JS.literals := ["youtube.com/v/"];
                      JS.class := not_amp_query_slash |} = None).
    { cbn. apply (match_without_literals (id ++ after)).
      intros lit Hlit. apply Hnone. simpl in *. tauto. }
    rewrite H1, H2. cbn. rewrite Hrun. destruct id; [contradiction | reflexivity].
Qed.

Lemma extractYouTubeId_roundtrip_witness :
  extractYouTubeId "https://www.youtube.com/watch?v=abc123&list=PL1" = Some "abc123" /\
  extractYouTubeId "https://youtu.be/abc123&list=PL1" = Some "abc123" /\
  extractYouTubeId "https://www.youtube.com/shorts/abc123&list=PL1" = Some "abc123".
Proof.
  destruct (extractYouTubeId_roundtrip "abc123" "&list=PL1")
    as (H1 & H2 & _ & _ & H5).
  - discriminate.
  - reflexivity.
  - reflexivity.
  - split; [exact H1|]. split; [exact H2|]. apply H5.
    intros lit Hin Hsub. apply includes_spec in Hsub.
    simpl in Hin. destruct Hin as [<-|[<-|[<-|[<-|[]]]]]; discriminate Hsub.
Defined.

Lemma extractYouTubeId_sound_witness :
  exists before lit after,
    In lit youtube_literals /\
    "https://www.youtube.com/shorts/s1?feature=share" =
    (before ++ lit ++ "s1" ++ after)%string /\
    ends_run not_amp_query_slash after.
Proof.
  exact (proj2 (proj2 (extractYouTubeId_sound
                         "https://www.youtube.com/shorts/s1?feature=share" "s1"
                         eq_refl))).
Defined.

Lemma extractYouTubeId_none_iff_witness :
  extractYouTubeId "https://www.youtube.com/channel/UC123" = None /\
  "https://www.youtube.com/channel/UC123" <>
  ("https://www." ++ "youtube.com/embed/" ++ String "x" EmptyString)%string.
Proof.
  split; [reflexivity|].
  apply (proj1 (extractYouTubeId_none_iff "https://www.youtube.com/channel/UC123")
               eq_refl "https://www." "youtube.com/embed/" "x"%char EmptyString).
  - simpl. tauto.
  - reflexivity.
Defined.

(** ** What a call asks of the environment *)

Lemma detectPlatform_normal (rt : JS.Runtime) (url : string) :
  exists p, detectPlatform rt url = Normal p.
Proof.
  unfold detectPlatform. destruct (JS.new_URL rt url) as [urlObj|]; simpl;
    [|eauto].
  repeat match goal with
         | |- context [if ?b then _ else _] => destruct b; simpl
         end; eauto.
Qed.

Section Requests.
Context {W : Type} (env : World W) (rt : JS.Runtime).

Lemma dispatch_returns (p : Platform) (url : string) (w : W) :
  exists r, completion (run env (dispatch rt p url) w) = Normal r.
Proof.
  destruct p; cbn [dispatch].
  - unfold fetchYouTubeThumbnail.
    destruct (extractYouTubeId url) as [[|c g]|];
      try (exists None; reflexivity).
    apply probe_all_returns.
  - apply try_catch_returns.
  - apply try_catch_returns.
Qed.

Lemma probe_all_requests (thumbs : list Thumb) (w : W) :
  Forall (fun req => init req = HEAD /\ In (input req) (List.map thumb_url thumbs))
         (requests (run env (probe_all thumbs) w)).
Proof.
  revert w. induction thumbs as [|thumb rest IH]; intros w.
  - constructor.
  - rewrite run_probe_all_cons. cbv zeta.
    destruct (is_ok (fst (fetch env (head_request thumb) w))); cbn [requests].
    + constructor; [|constructor]. split; [reflexivity | left; reflexivity].
    + constructor; [split; [reflexivity | left; reflexivity]|].
      eapply Forall_impl; [|apply IH]. cbn. intros req [H1 H2]. auto.
Qed.

Lemma fetchYouTubeThumbnail_requests (url : string) (w : W) :
  (length (requests (run env (fetchYouTubeThumbnail url) w)) <= 3)%nat /\
  Forall (expected_request rt url) (requests (run env (fetchYouTubeThumbnail url) w)).
Proof.
  unfold fetchYouTubeThumbnail.
  destruct (extractYouTubeId url) as [[|c g]|];
    try (split; [cbn; lia | constructor]).
  split.
  - apply (probe_all_result env (thumbnails (String c g)) w).
  - eapply Forall_impl; [|apply probe_all_requests].
    intros req [Hinit Hin]. left. split; [exact Hinit|].
    cbn in Hin. destruct Hin as [<-|[<-|[<-|[]]]]; reflexivity.
Qed.

Lemma fetchPeerTubeThumbnail_requests (url : string) (w : W) :
  (length (requests (run env (fetchPeerTubeThumbnail rt url) w)) <= 1)%nat /\
  Forall (expected_request rt url)
         (requests (run env (fetchPeerTubeThumbnail rt url) w)).
Proof.
  unfold fetchPeerTubeThumbnail, await_fetch.
  destruct (JS.new_URL rt url) as [urlObj|] eqn:Hparse; simpl;
    [|split; [lia | constructor]].
  destruct (JS.match_ url uuid_pattern) as [[|c g]|] eqn:Hmatch; simpl;
    try (split; [lia | constructor]).
  assert (Hreq : expected_request rt url
                   {| input := (JS.origin urlObj ++ "/api/v1/videos/" ++ String c g)%string;
                      init := accept_json |}).
  { right. right. split; [reflexivity|]. exists urlObj, (String c g). auto. }
  simpl in Hreq.
  destruct (fetch env _ w) as [[|res] w1]; simpl;
    [split; [lia | constructor; [exact Hreq | constructor]]|].
  destruct (ok res); simpl;
    [|split; [lia | constructor; [exact Hreq | constructor]]].
  destruct (json res) as [data|]; simpl;
    [|split; [lia | constructor; [exact Hreq | constructor]]].
  destruct (JS.get data "thumbnailPath") as [v1|]; simpl;
    [|split; [lia | constructor; [exact Hreq | constructor]]].
  destruct (JS.nullish v1); simpl.
  - destruct (JS.get data "previewPath") as [v2|]; simpl;
      [|split; [lia | constructor; [exact Hreq | constructor]]].
    destruct (JS.truthy v2); simpl;
      [|split; [lia | constructor; [exact Hreq | constructor]]].
    destruct (JS.ToString rt v2); simpl;
      split; try lia; constructor; try exact Hreq; constructor.
  - destruct (JS.truthy v1); simpl;
      [|split; [lia | constructor; [exact Hreq | constructor]]].
    destruct (JS.ToString rt v1); simpl;
      split; try lia; constructor; try exact Hreq; constructor.
Qed.

Lemma fetchVimeoThumbnail_requests (url : string) (w : W) :
  (length (requests (run env (fetchVimeoThumbnail rt url) w)) <= 1)%nat /\
  Forall (expected_request rt url)
         (requests (run env (fetchVimeoThumbnail rt url) w)).
Proof.
  unfold fetchVimeoThumbnail, await_fetch.
  destruct (JS.encodeURIComponent rt url) as [encoded|] eqn:Henc; simpl;
    [|split; [lia | constructor]].
  assert (Hreq : expected_request rt url
                   {| input := ("https://vimeo.com/api/oembed.json?url=" ++ encoded)%string;
                      init := accept_json |}).
  { right. left. split; [reflexivity|]. exists encoded. auto. }
  simpl in Hreq.
  destruct (fetch env _ w) as [[|res] w1]; simpl;
    [split; [lia | constructor; [exact Hreq | constructor]]|].
  destruct (ok res); simpl;
    [|split; [lia | constructor; [exact Hreq | constructor]]].
  destruct (json res) as [data|]; simpl;
    [|split; [lia | constructor; [exact Hreq | constructor]]].
  destruct (JS.get data "thumbnail_url") as [v|]; simpl;
    [|split; [lia | constructor; [exact Hreq | constructor]]].
  destruct (JS.truthy v); simpl;
    [|split; [lia | constructor; [exact Hreq | constructor]]].
  destruct (JS.get data "thumbnail_width") as [tw|]; simpl;
    [|split; [lia | constructor; [exact Hreq | constructor]]].
  destruct (JS.get data "thumbnail_height") as [th|]; simpl;
    split; try lia; constructor; try exact Hreq; constructor.
Qed.

Lemma dispatch_requests (p : Platform) (url : string) (w : W) :
  (length (requests (run env (dispatch rt p url) w)) <= 3)%nat /\
  Forall (expected_request rt url) (requests (run env (dispatch rt p url) w)).
Proof.
  destruct p; cbn [dispatch].
  - apply fetchYouTubeThumbnail_requests.
  - destruct (fetchPeerTubeThumbnail_requests url w) as [H1 H2].
    split; [lia | exact H2].
  - destruct (fetchVimeoThumbnail_requests url w) as [H1 H2].
    split; [lia | exact H2].
Qed.

(** How a call of [getVideoThumbnail] goes: it is served from the cache, or
    it resolves [url] against the store [s0], which is [s] without the
    expired entry, and then detection fails, or the fetcher returns none, or
    the fetcher returns a result that is stored under [url]. *)
Lemma getVideoThumbnail_cases (url : string) (s : Store) (w : W) out :
  completion (run env (getVideoThumbnail rt url s) w) = Normal out ->
  (exists e,
     JS.Map_get url (thumbnailCache s) = Some e /\
     fst (now env w) - timestamp e < CACHE_TTL /\
     out = (Some (spread_cached (result e) true), s) /\
     requests (run env (getVideoThumbnail rt url s) w) = []) \/
  (exists s0 w0,
     ((s0 = s /\ w0 = w /\ JS.Map_get url (thumbnailCache s) = None) \/
      (exists e,
         JS.Map_get url (thumbnailCache s) = Some e /\
         fst (now env w) - timestamp e >= CACHE_TTL /\
         s0 = with_cache s (JS.Map_delete url (thumbnailCache s)) /\
         w0 = snd (now env w))) /\
     ((detectPlatform rt url = Normal None /\ out = (None, s0) /\
       requests (run env (getVideoThumbnail rt url s) w) = []) \/
      (exists p,
         detectPlatform rt url = Normal (Some p) /\
         requests (run env (getVideoThumbnail rt url s) w) =
         requests (run env (dispatch rt p url) w0) /\
         ((completion (run env (dispatch rt p url) w0) = Normal None /\
           out = (None, s0)) \/
          (exists r t,
             completion (run env (dispatch rt p url) w0) = Normal (Some r) /\
             now env (world (run env (dispatch rt p url) w0)) =
             (t, world (run env (getVideoThumbnail rt url s) w)) /\
             out = (Some r,
                    with_cache s0
                      (JS.Map_set url {| result := r; timestamp := t |}
                                  (thumbnailCache s0)))))))).
Proof.
  assert (Hres : forall s0 w0,
             completion (run env (resolve rt url s0) w0) = Normal out ->
             (detectPlatform rt url = Normal None /\ out = (None, s0) /\
              requests (run env (resolve rt url s0) w0) = []) \/
             (exists p,
                detectPlatform rt url = Normal (Some p) /\
                requests (run env (resolve rt url s0) w0) =
                requests (run env (dispatch rt p url) w0) /\
                ((completion (run env (dispatch rt p url) w0) = Normal None /\
                  out = (None, s0)) \/
                 (exists r t,
                    completion (run env (dispatch rt p url) w0) = Normal (Some r) /\
                    now env (world (run env (dispatch rt p url) w0)) =
                    (t, world (run env (resolve rt url s0) w0)) /\
                    out = (Some r,
                           with_cache s0
                             (JS.Map_set url {| result := r; timestamp := t |}
                                         (thumbnailCache s0))))))).
  { intros s0 w0. rewrite run_resolve.
    destruct (detectPlatform rt url) as [[p|]|]; cbv zeta.
    - destruct (completion (run env (dispatch rt p url) w0)) as [[r|]|] eqn:E;
        cbn [completion requests world]; try discriminate.
      + intros [= <-]. right. exists p. split; [reflexivity|].
        split; [reflexivity|]. right. exists r. eexists.
        split; [exact E|]. split; [|reflexivity].
        destruct (now env (world (run env (dispatch rt p url) w0))); reflexivity.
      + intros [= <-]. right. exists p. auto.
    - cbn. intros [= <-]. auto.
    - cbn. discriminate. }
  rewrite run_getVideoThumbnail.
  destruct (JS.Map_get url (thumbnailCache s)) as [e|] eqn:Hget.
  - destruct (fst (now env w) - timestamp e <? CACHE_TTL) eqn:Hage.
    + cbn. intros [= <-]. left. exists e. apply Z.ltb_lt in Hage. auto.
    + intros H. right.
      exists (with_cache s (JS.Map_delete url (thumbnailCache s))), (snd (now env w)).
      split; [|apply Hres, H].
      right. exists e. apply Z.ltb_ge in Hage. repeat split; auto. lia.
  - intros H. right. exists s, w. split; [auto | apply Hres, H].
Qed.

Lemma getVideoThumbnail_returns (url : string) (s : Store) (w : W) :
  exists r s',
    completion (run env (getVideoThumbnail rt url s) w) = Normal (r, s').
Proof.
  assert (Hres : forall s0 w0, exists r s',
               completion (run env (resolve rt url s0) w0) = Normal (r, s')).
  { intros s0 w0. rewrite run_resolve.
    destruct (detectPlatform_normal rt url) as [[p|] ->]; [|cbn; eauto].
    cbv zeta. destruct (dispatch_returns p url w0) as [[r|] ->]; cbn; eauto. }
  rewrite run_getVideoThumbnail.
  destruct (JS.Map_get url (thumbnailCache s)) as [e|]; [|apply Hres].
  destruct (fst (now env w) - timestamp e <? CACHE_TTL); [cbn; eauto | apply Hres].
Qed.

(** X4. Every call of [getVideoThumbnail] completes normally, with a result
    or none, and so does every sequence of calls of the four exported
    functions, whatever the store, the strings, and the answers of [fetch],
    of [res.json()], of the clock and of the runtime are. *)
Theorem getVideoThumbnail_never_throws (url : string) (cs : list Call)
        (s : Store) (w : W) :
  (exists r s',
     completion (run env (getVideoThumbnail rt url s) w) = Normal (r, s')) /\
  (exists s', completion (run env (perform_all rt cs s) w) = Normal s').
Proof.
  split; [apply getVideoThumbnail_returns|].
  revert s w. induction cs as [|c cs IH]; intros s w; cbn [perform_all].
  - cbn. eauto.
  - rewrite run_bind.
    assert (Hc : exists s1, completion (run env (perform rt c s) w) = Normal s1).
    { destruct c as [u| | |]; cbn [perform].
      - rewrite run_bind.
        destruct (getVideoThumbnail_returns u s w) as (r & s1 & ->). cbn. eauto.
      - cbn. eauto.
      - cbn. eauto.
      - rewrite run_bind. unfold pruneExpiredCache, Date_now. cbn [bind run].
        destruct (now env w) as [t w1].
        destruct (fold_left (prune_step t) (JS.Map_entries (thumbnailCache s))
                            (thumbnailCache s, 0)) as [cache removed].
        cbn. eauto. }
    destruct Hc as [s1 ->]. cbv zeta.
    destruct (IH s1 (world (run env (perform rt c s) w))) as [s2 H2].
    cbn [completion]. eauto.
Qed.

(** X5. A call of [getVideoThumbnail] passes at most three requests to
    [fetch], and each of them is a HEAD request for a file under
    https://img.youtube.com/vi/, or the oEmbed request of Vimeo for the
    encoded URL, or a request to /api/v1/videos/ followed by the identifier
    at the origin of the URL itself, the last two with the header Accept:
    application/json. *)
Theorem getVideoThumbnail_requests (url : string) (s : Store) (w : W) :
  (length (requests (run env (getVideoThumbnail rt url s) w)) <= 3)%nat /\
  Forall (expected_request rt url)
         (requests (run env (getVideoThumbnail rt url s) w)).
Proof.
  destruct (getVideoThumbnail_returns url s w) as (r & s' & Hrun).
  destruct (getVideoThumbnail_cases url s w (r, s') Hrun)
    as [(e & _ & _ & _ & ->) | (s0 & w0 & _ & [(_ & _ & ->) | (p & _ & -> & _)])].
  - split; [cbn; lia | constructor].
  - split; [cbn; lia | constructor].
  - apply dispatch_requests.
Qed.

End Requests.

(** ** What a call does to the store *)

Section MapMore.
Context {V : Type}.
Implicit Types (m : JS.Map V) (k : string) (v : V).

Lemma Map_get_set_other k k' v m :
  k <> k' -> JS.Map_get k (JS.Map_set k' v m) = JS.Map_get k m.
Proof.
  intros Hne. induction m as [|[k0 v0] m IH]; simpl.
  - destruct (String.eqb k' k) eqn:E; [|reflexivity].
    apply String.eqb_eq in E. congruence.
  - destruct (String.eqb k0 k') eqn:E; simpl.
    + apply String.eqb_eq in E. subst k0.
      destruct (String.eqb k' k) eqn:E'; [|reflexivity].
      apply String.eqb_eq in E'. congruence.
    + destruct (String.eqb k0 k); [reflexivity | exact IH].
Qed.

Lemma Map_get_delete_other k k' m :
  k <> k' -> JS.Map_get k (JS.Map_delete k' m) = JS.Map_get k m.
Proof.
  intros Hne. induction m as [|[k0 v0] m IH]; simpl; [reflexivity|].
  destruct (String.eqb k0 k') eqn:E; simpl.
  - apply String.eqb_eq in E. subst k0.
    destruct (String.eqb k' k) eqn:E'; [|reflexivity].
    apply String.eqb_eq in E'. congruence.
  - destruct (String.eqb k0 k); [reflexivity | exact IH].
Qed.

Lemma Map_In_get k m :
  In k (JS.Map_keys m) -> exists v, JS.Map_get k m = Some v.
Proof.
  induction m as [|[k0 v0] m IH]; simpl; [tauto|].
  intros [->|Hin].
  - rewrite String.eqb_refl. eauto.
  - destruct (String.eqb k0 k); eauto.
Qed.

Lemma Map_size_set_new k v m :
  JS.Map_get k m = None -> JS.Map_size (JS.Map_set k v m) = JS.Map_size m + 1.
Proof.
  unfold JS.Map_size. induction m as [|[k0 v0] m IH];
    cbn [JS.Map_get JS.Map_set length]; [reflexivity|].
  destruct (String.eqb k0 k); [discriminate|]. intros H.
  cbn [length]. specialize (IH H). lia.
Qed.

Lemma Map_size_set_old k v v' m :
  JS.Map_get k m = Some v' -> JS.Map_size (JS.Map_set k v m) = JS.Map_size m.
Proof.
  unfold JS.Map_size. induction m as [|[k0 v0] m IH];
    cbn [JS.Map_get JS.Map_set length]; [discriminate|].
  destruct (String.eqb k0 k); [reflexivity|]. intros H.
  cbn [length]. specialize (IH H). lia.
Qed.

Lemma Map_size_delete k v m :
  JS.Map_get k m = Some v -> JS.Map_size (JS.Map_delete k m) = JS.Map_size m - 1.
Proof.
  unfold JS.Map_size. induction m as [|[k0 v0] m IH];
    cbn [JS.Map_get JS.Map_delete length]; [discriminate|].
  destruct (String.eqb k0 k); [lia|]. intros H.
  cbn [length]. specialize (IH H). lia.
Qed.

End MapMore.

Section StoreEffects.
Context {W : Type} (env : World W) (rt : JS.Runtime).

(** X6. A call that returns none leaves no entry for its URL: when the lookup
    missed nothing was stored, and when an expired entry was found it was
    deleted and the failed refresh stored nothing in its place. *)
Theorem getVideoThumbnail_none_not_cached (videoUrl : string) (s s' : Store)
        (w : W) :
  JS.Map_ok (thumbnailCache s) ->
  completion (run env (getVideoThumbnail rt videoUrl s) w) = Normal (None, s') ->
  JS.Map_get videoUrl (thumbnailCache s') = None.
Proof.
  intros Hok Hrun.
  destruct (getVideoThumbnail_cases env rt videoUrl s w _ Hrun)
    as [(e & _ & _ & Hout & _) | (s0 & w0 & Hs0 & Hout)]; [discriminate|].
  assert (Hget0 : JS.Map_get videoUrl (thumbnailCache s0) = None).
  { destruct Hs0 as [(-> & _ & H) | (e & _ & _ & -> & _)]; [exact H|].
    apply Map_get_delete, Hok. }
  destruct Hout as [(_ & [= <-] & _) | (p & _ & _ & [(_ & [= <-]) | (r & t & _ & _ & H)])];
    try exact Hget0.
  discriminate.
Qed.

(** X7. After a call that returns a result the cache has an entry for the URL
    whose result has the url, width, height and platform of the one returned.
    When the result was fetched (cached is false) the entry holds that very
    result, and its timestamp is the last thing the call read from the
    environment: the clock, after the fetcher had finished. *)
Theorem getVideoThumbnail_result_cached (videoUrl : string) (s s' : Store)
        (w : W) (r : ThumbnailResult) :
  completion (run env (getVideoThumbnail rt videoUrl s) w) = Normal (Some r, s') ->
  exists e,
    JS.Map_get videoUrl (thumbnailCache s') = Some e /\
    url (result e) = url r /\ width (result e) = width r /\
    height (result e) = height r /\ platform (result e) = platform r /\
    (cached r = false ->
     result e = r /\
     exists w0, now env w0 =
                (timestamp e, world (run env (getVideoThumbnail rt videoUrl s) w))).
Proof.
  intros Hrun.
  destruct (getVideoThumbnail_cases env rt videoUrl s w _ Hrun)
    as [(e & Hget & _ & [= -> ->] & _) | (s0 & w0 & _ & Hout)].
  - exists e. split; [exact Hget|]. repeat split; cbn; discriminate.
  - destruct Hout as [(_ & [=] & _) | (p & _ & _ & [(_ & [=]) | (r1 & t & _ & Hnow & [= -> ->])])].
    exists {| result := r1; timestamp := t |}.
    cbn [thumbnailCache with_cache result timestamp].
    rewrite Map_get_set. repeat split. eauto.
Qed.

(** X8. A call of [getVideoThumbnail] changes nothing but the entry of its own
    URL: the entry of every other key, and every array that [getCacheStats]
    returned, is as before. *)
Theorem getVideoThumbnail_frame (videoUrl k : string) (s s' : Store) (w : W)
        (r : option ThumbnailResult) :
  completion (run env (getVideoThumbnail rt videoUrl s) w) = Normal (r, s') ->
  k <> videoUrl ->
  JS.Map_get k (thumbnailCache s') = JS.Map_get k (thumbnailCache s) /\
  arrays s' = arrays s.
Proof.
  intros Hrun Hne.
  destruct (getVideoThumbnail_cases env rt videoUrl s w _ Hrun)
    as [(e & _ & _ & [= _ ->] & _) | (s0 & w0 & Hs0 & Hout)]; [auto|].
  assert (H0 : JS.Map_get k (thumbnailCache s0) = JS.Map_get k (thumbnailCache s) /\
               arrays s0 = arrays s).
  { destruct Hs0 as [(-> & _ & _) | (e & _ & _ & -> & _)]; [auto|].
    cbn [thumbnailCache arrays with_cache].
    split; [apply Map_get_delete_other, Hne | reflexivity]. }
  destruct Hout as [(_ & [= _ ->] & _) | (p & _ & _ & [(_ & [= _ ->]) | (r1 & t & _ & _ & [= _ ->])])];
    try exact H0.
  cbn [thumbnailCache arrays with_cache].
  rewrite Map_get_set_other by exact Hne. exact H0.
Qed.

(** X9. The flag [cached] of a returned result tells whether [fetch] was
    called: it is true exactly when the call made no request, and then the
    store is as it was. *)
Theorem getVideoThumbnail_cached_flag (videoUrl : string) (s s' : Store)
        (w : W) (r : ThumbnailResult) :
  completion (run env (getVideoThumbnail rt videoUrl s) w) = Normal (Some r, s') ->
  (cached r = true <-> requests (run env (getVideoThumbnail rt videoUrl s) w) = []) /\
  (cached r = true -> s' = s).
Proof.
  intros Hrun.
  destruct (getVideoThumbnail_cases env rt videoUrl s w _ Hrun)
    as [(e & _ & _ & [= -> ->] & Hreq) | (s0 & w0 & _ & Hout)].
  - rewrite Hreq. cbn. tauto.
  - destruct Hout as [(_ & [=] & _) | (p & _ & Hreq & [(_ & [=]) | (r1 & t & Hd & _ & [= -> ->])])].
    destruct (run_dispatch_result env rt p videoUrl w0 r1 Hd) as (Hc & _ & Hlen & _).
    rewrite Hreq, Hc. split; [split|]; try discriminate.
    intros Hnil. rewrite Hnil in Hlen. cbn in Hlen. lia.
Qed.

(** The entries that the calls store are fresh results of the platform that
    [detectPlatform] gives for their key. *)
Lemma perform_entries (c : Call) (s s' : Store) (w : W) :
  JS.Map_ok (thumbnailCache s) ->
  (forall k e, JS.Map_get k (thumbnailCache s) = Some e ->
               cached (result e) = false /\
               detectPlatform rt k = Normal (Some (platform (result e)))) ->
  completion (run env (perform rt c s) w) = Normal s' ->
  forall k e, JS.Map_get k (thumbnailCache s') = Some e ->
              cached (result e) = false /\
              detectPlatform rt k = Normal (Some (platform (result e))).
Proof.
  intros Hok Hinv. destruct c as [u| | |]; cbn [perform].
  - rewrite run_bind.
    destruct (completion (run env (getVideoThumbnail rt u s) w))
      as [[r s1]|] eqn:E; [|discriminate].
    cbn. intros [= <-] k e.
    destruct (getVideoThumbnail_cases env rt u s w _ E)
      as [(e0 & _ & _ & [= _ ->] & _) | (s0 & w0 & Hs0 & Hout)]; [apply Hinv|].
    assert (H0 : JS.Map_get k (thumbnailCache s0) = Some e ->
                 cached (result e) = false /\
                 detectPlatform rt k = Normal (Some (platform (result e)))).
    { destruct Hs0 as [(-> & _ & _) | (e0 & _ & _ & -> & _)]; [apply Hinv|].
      cbn [thumbnailCache with_cache].
      destruct (String.eqb k u) eqn:Ek.
      - apply String.eqb_eq in Ek. subst k.
        rewrite (Map_get_delete _ _ Hok). discriminate.
      - apply String.eqb_neq in Ek.
        rewrite (Map_get_delete_other _ _ _ Ek). apply Hinv. }
    destruct Hout as [(_ & [= _ ->] & _) | (p & Hp & _ & [(_ & [= _ ->]) | (r1 & t & Hd & _ & [= _ ->])])];
      try exact H0.
    cbn [thumbnailCache with_cache].
    destruct (String.eqb k u) eqn:Ek.
    + apply String.eqb_eq in Ek. subst k. rewrite Map_get_set.
      intros [= <-]. cbn [result].
      destruct (run_dispatch_result env rt p u w0 r1 Hd) as (Hc & Hplat & _).
      split; [exact Hc | congruence].
    + apply String.eqb_neq in Ek.
      rewrite (Map_get_set_other _ _ _ _ Ek). exact H0.
  - cbn. intros [= <-] k e. cbn. discriminate.
  - cbn. intros [= <-]. exact Hinv.
  - rewrite run_bind, (run_pruneExpiredCache env s w Hok). cbn.
    intros [= <-] k e. cbn [thumbnailCache with_cache].
    rewrite (Map_get_filter _ _ _ Hok).
    destruct (JS.Map_get k (thumbnailCache s)) as [e0|] eqn:Hget; [|discriminate].
    destruct (negb _); [|discriminate]. intros [= <-]. apply Hinv, Hget.
Qed.

End StoreEffects.

Lemma reachable_entries (rt : JS.Runtime) (s : Store) :
  Reachable rt s ->
  forall k e, JS.Map_get k (thumbnailCache s) = Some e ->
              cached (result e) = false /\
              detectPlatform rt k = Normal (Some (platform (result e))).
Proof.
  induction 1 as [|W env w c s s' Hreach IH Hrun].
  - cbn. discriminate.
  - destruct (reachable_invariant rt s Hreach) as [Hok _].
    exact (perform_entries env rt c s s' w Hok IH Hrun).
Qed.

(** X10. In every state that calls of the four exported functions lead to
    from the empty cache, no key occurs twice, and every entry holds a result
    whose [cached] is false and whose platform is the one [detectPlatform]
    gives for the entry's key.  The calls are made one after the other, and
    the callers do not write to the result objects they were handed (a
    fetched result is the object that the cache keeps). *)
Theorem reachable_store_invariant (rt : JS.Runtime) (s : Store) :
  Reachable rt s ->
  NoDup (JS.Map_keys (thumbnailCache s)) /\
  forall k e, JS.Map_get k (thumbnailCache s) = Some e ->
              cached (result e) = false /\
              detectPlatform rt k = Normal (Some (platform (result e))).
Proof.
  intros Hreach. split.
  - apply (reachable_invariant rt s Hreach).
  - apply reachable_entries, Hreach.
Qed.

(** X11. In every such state a result that [getVideoThumbnail] returns,
    fetched or served from the cache, has the platform that [detectPlatform]
    gives for the URL of the call. *)
Theorem getVideoThumbnail_platform {W : Type} (env : World W) (rt : JS.Runtime)
        (videoUrl : string) (s s' : Store) (w : W) (r : ThumbnailResult) :
  Reachable rt s ->
  completion (run env (getVideoThumbnail rt videoUrl s) w) = Normal (Some r, s') ->
  detectPlatform rt videoUrl = Normal (Some (platform r)).
Proof.
  intros Hreach Hrun.
  destruct (getVideoThumbnail_cases env rt videoUrl s w _ Hrun)
    as [(e & Hget & _ & [= -> ->] & _) | (s0 & w0 & _ & Hout)].
  - apply (reachable_entries rt s Hreach videoUrl e Hget).
  - destruct Hout as [(_ & [=] & _) | (p & Hp & _ & [(_ & [=]) | (r1 & t & Hd & _ & [= -> ->])])].
    destruct (run_dispatch_result env rt p videoUrl w0 r1 Hd) as (_ & Hplat & _).
    congruence.
Qed.

(** ** Clearing, counting and pruning *)

Lemma filter_filter_weaker {A} (f g : A -> bool) (l : list A) :
  (forall x, g x = true -> f x = true) ->
  filter g (filter f l) = filter g l.
Proof.
  intros Himp. induction l as [|x l IH]; [reflexivity|].
  cbn [filter]. destruct (f x) eqn:Ef; cbn [filter].
  - rewrite IH. reflexivity.
  - destruct (g x) eqn:Eg; [|exact IH].
    rewrite (Himp x Eg) in Ef. discriminate.
Qed.

Section Housekeeping.
Context {W : Type} (env : World W) (rt : JS.Runtime).

(** X12. After [clearThumbnailCache] the cache is empty whatever it held:
    [getCacheStats] reports size 0 and no key, clearing again changes
    nothing, the arrays handed out before are still there, and a result that
    the next [getVideoThumbnail] returns, for any URL, was fetched: its
    [cached] is false and [fetch] was called. *)
Theorem clearThumbnailCache_forces_fetch (s : Store) :
  size (fst (getCacheStats (clearThumbnailCache s))) = 0 /\
  Array_read (snd (getCacheStats (clearThumbnailCache s)))
             (keys (fst (getCacheStats (clearThumbnailCache s)))) = Some [] /\
  clearThumbnailCache (clearThumbnailCache s) = clearThumbnailCache s /\
  arrays (clearThumbnailCache s) = arrays s /\
  forall videoUrl w r s',
    completion (run env (getVideoThumbnail rt videoUrl (clearThumbnailCache s)) w) =
    Normal (Some r, s') ->
    cached r = false /\
    (1 <= length (requests (run env (getVideoThumbnail rt videoUrl
                                       (clearThumbnailCache s)) w)))%nat.
Proof.
  split; [reflexivity|]. split.
  { unfold getCacheStats, Array_from, Array_read, clearThumbnailCache.
    cbn. rewrite nth_error_app2 by lia. rewrite Nat.sub_diag. reflexivity. }
  split; [reflexivity|]. split; [reflexivity|].
  intros videoUrl w r s' Hrun.
  destruct (getVideoThumbnail_cases env rt videoUrl _ w _ Hrun)
    as [(e & Hget & _) | (s0 & w0 & _ & Hout)]; [discriminate|].
  destruct Hout as [(_ & [=] & _) | (p & _ & Hreq & [(_ & [=]) | (r1 & t & Hd & _ & [= -> ->])])].
  destruct (run_dispatch_result env rt p videoUrl w0 r1 Hd) as (Hc & _ & Hlen & _).
  rewrite Hreq. split; [exact Hc | apply Hlen].
Qed.

(** X13. The array that [getCacheStats] returns lists, without a repetition,
    exactly the URLs for which the cache has an entry, [size] is the number
    of its elements, and the call leaves the cache as it is. *)
Theorem getCacheStats_keys (s : Store) :
  JS.Map_ok (thumbnailCache s) ->
  exists ks,
    Array_read (snd (getCacheStats s)) (keys (fst (getCacheStats s))) = Some ks /\
    size (fst (getCacheStats s)) = Z.of_nat (length ks) /\
    NoDup ks /\
    (forall k, In k ks <-> exists e, JS.Map_get k (thumbnailCache s) = Some e) /\
    thumbnailCache (snd (getCacheStats s)) = thumbnailCache s.
Proof.
  intros Hok. exists (JS.Map_keys (thumbnailCache s)).
  unfold getCacheStats, Array_from, Array_read.
  cbn [fst snd keys size arrays thumbnailCache].
  split; [rewrite nth_error_app2 by lia; rewrite Nat.sub_diag; reflexivity|].
  split; [unfold JS.Map_size, JS.Map_keys; rewrite length_map; reflexivity|].
  split; [exact Hok|]. split; [|reflexivity].
  intros k. split.
  - apply Map_In_get.
  - intros [e He]. eapply Map_get_In, He.
Qed.

(** X14. How a call of [getVideoThumbnail] changes the number of entries: a
    result for a URL that had no entry adds one; none for a URL that had an
    entry (it was expired and the refresh failed) removes one; every other
    call leaves the number as it is. *)
Theorem getVideoThumbnail_size (videoUrl : string) (s s' : Store) (w : W)
        (r : option ThumbnailResult) :
  JS.Map_ok (thumbnailCache s) ->
  completion (run env (getVideoThumbnail rt videoUrl s) w) = Normal (r, s') ->
  JS.Map_size (thumbnailCache s') =
  JS.Map_size (thumbnailCache s) +
  match r, JS.Map_get videoUrl (thumbnailCache s) with
  | Some _, None => 1
  | None, Some _ => -1
  | _, _ => 0
  end.
Proof.
  intros Hok Hrun.
  destruct (getVideoThumbnail_cases env rt videoUrl s w _ Hrun)
    as [(e & Hget & _ & [= -> ->] & _) | (s0 & w0 & Hs0 & Hout)].
  - rewrite Hget. lia.
  - destruct Hs0 as [(-> & _ & Hget) | (e & Hget & _ & -> & _)]; rewrite Hget.
    + destruct Hout as [(_ & [= -> ->] & _) | (p & _ & _ & [(_ & [= -> ->]) | (r1 & t & _ & _ & [= -> ->])])];
        try lia.
      cbn [thumbnailCache with_cache]. apply Map_size_set_new, Hget.
    + pose proof (Map_size_delete _ _ _ Hget) as Hdel.
      destruct Hout as [(_ & [= -> ->] & _) | (p & _ & _ & [(_ & [= -> ->]) | (r1 & t & _ & _ & [= -> ->])])];
        cbn [thumbnailCache with_cache]; try lia.
      rewrite Map_size_set_new by (apply Map_get_delete, Hok). lia.
Qed.

(** X15. [pruneExpiredCache] and [getVideoThumbnail] agree on what is expired.
    After a prune at time [t], a call at a time that is not later finds every
    entry that is left fresh: it returns the entry's result with cached true,
    asks [fetch] nothing and leaves the store; and for a key whose entry the
    prune removed the call resolves the URL anew. *)
Theorem pruneExpiredCache_then_getVideoThumbnail (s s' : Store) (removed : Z)
        (videoUrl : string) (w w2 : W) :
  JS.Map_ok (thumbnailCache s) ->
  completion (run env (pruneExpiredCache s) w) = Normal (removed, s') ->
  fst (now env w2) <= fst (now env w) ->
  (forall e,
     JS.Map_get videoUrl (thumbnailCache s') = Some e ->
     run env (getVideoThumbnail rt videoUrl s') w2 =
     {| completion := Normal (Some (spread_cached (result e) true), s');
        requests := [];
        world := snd (now env w2) |}) /\
  (forall e,
     JS.Map_get videoUrl (thumbnailCache s) = Some e ->
     fst (now env w) - timestamp e >= CACHE_TTL ->
     run env (getVideoThumbnail rt videoUrl s') w2 =
     run env (resolve rt videoUrl s') w2).
Proof.
  intros Hok Hrun Hle.
  rewrite (run_pruneExpiredCache env s w Hok) in Hrun. cbn in Hrun.
  injection Hrun as _ <-. cbn [thumbnailCache with_cache]. split.
  - intros e. rewrite (Map_get_filter _ _ _ Hok).
    destruct (JS.Map_get videoUrl (thumbnailCache s)) as [e0|] eqn:Hget;
      [|discriminate].
    unfold expired. cbn [snd].
    destruct (fst (now env w) - timestamp e0 >=? CACHE_TTL) eqn:Hage;
      [discriminate|].
    cbn [negb]. intros [= ->]. rewrite run_getVideoThumbnail.
    cbn [thumbnailCache with_cache].
    rewrite (Map_get_filter _ _ _ Hok), Hget. unfold expired. cbn [snd].
    rewrite Hage. cbn [negb].
    assert (Hfresh : (fst (now env w2) - timestamp e <? CACHE_TTL) = true).
    { apply Z.ltb_lt. rewrite Z.geb_leb in Hage. apply Z.leb_gt in Hage. lia. }
    rewrite Hfresh. reflexivity.
  - intros e Hget Hage. rewrite run_getVideoThumbnail.
    cbn [thumbnailCache with_cache].
    rewrite (Map_get_filter _ _ _ Hok), Hget. unfold expired. cbn [snd].
    assert (Hexp : (fst (now env w) - timestamp e >=? CACHE_TTL) = true).
    { rewrite Z.geb_leb. apply Z.leb_le. lia. }
    rewrite Hexp. reflexivity.
Qed.

(** X16. Pruning at a time and again at a later time is pruning once at the
    later time: the store is the same, and the two counts add up to the count
    of the single prune. *)
Theorem pruneExpiredCache_twice (s s1 s2 s3 : Store) (n1 n2 n3 : Z)
        (w1 w2 w3 : W) :
  JS.Map_ok (thumbnailCache s) ->
  fst (now env w1) <= fst (now env w2) ->
  fst (now env w3) = fst (now env w2) ->
  completion (run env (pruneExpiredCache s) w1) = Normal (n1, s1) ->
  completion (run env (pruneExpiredCache s1) w2) = Normal (n2, s2) ->
  completion (run env (pruneExpiredCache s) w3) = Normal (n3, s3) ->
  s2 = s3 /\ n1 + n2 = n3.
Proof.
  intros Hok Hle Heq H1 H2 H3.
  rewrite (run_pruneExpiredCache env s w1 Hok) in H1. cbn in H1.
  injection H1 as <- <-.
  rewrite run_pruneExpiredCache in H2
    by (cbn [thumbnailCache with_cache]; apply Map_ok_filter, Hok).
  cbn in H2. injection H2 as <- <-.
  rewrite (run_pruneExpiredCache env s w3 Hok) in H3. cbn in H3.
  injection H3 as <- <-.
  rewrite Heq.
  set (t1 := fst (now env w1)) in *. set (t2 := fst (now env w2)) in *.
  assert (Hfilter : filter (fun kv => negb (expired t2 kv))
                           (filter (fun kv => negb (expired t1 kv)) (thumbnailCache s)) =
                    filter (fun kv => negb (expired t2 kv)) (thumbnailCache s)).
  { apply filter_filter_weaker. intros [k e]. unfold expired. cbn [snd].
    rewrite !Z.geb_leb, !negb_true_iff, !Z.leb_gt. lia. }
  split.
  - unfold with_cache. cbn [thumbnailCache arrays]. rewrite Hfilter. reflexivity.
  - pose proof (filter_length_split (expired t1) (thumbnailCache s)) as L1.
    pose proof (filter_length_split (expired t2)
                  (filter (fun kv => negb (expired t1 kv)) (thumbnailCache s))) as L2.
    pose proof (filter_length_split (expired t2) (thumbnailCache s)) as L3.
    rewrite Hfilter in L2. lia.
Qed.

End Housekeeping.

(** ** When the Vimeo and PeerTube fetchers return a result *)

Section FetcherResults.
Context {W : Type} (env : World W) (rt : JS.Runtime).

Lemma truthy_property (data v : JS.JSValue) (k : string) :
  JS.get data k = Normal v -> JS.truthy v = true ->
  exists props, data = JS.JObject props.
Proof.
  destruct data; cbn; intros [= <-]; try discriminate. eauto.
Qed.

(** X17. [fetchVimeoThumbnail] returns a result exactly when
    [encodeURIComponent] succeeds, [fetch] resolves the oEmbed request with an
    ok response, the body parses to an object, and its [thumbnail_url] is
    truthy; the result is then built from the three properties of the body.
    A rejected [fetch], a response that is not ok, a body that does not
    parse or is not an object, and a missing or falsy [thumbnail_url] all give
    none. *)
Theorem fetchVimeoThumbnail_some_iff (url : string) (w : W) (r : ThumbnailResult) :
  completion (run env (fetchVimeoThumbnail rt url) w) = Normal (Some r) <->
  exists encoded res w1 props,
    JS.encodeURIComponent rt url = Normal encoded /\
    fetch env {| input := ("https://vimeo.com/api/oembed.json?url=" ++ encoded)%string;
                 init := accept_json |} w = (Resolved res, w1) /\
    ok res = true /\
    json res = Normal (JS.JObject props) /\
    JS.truthy (JS.own_property "thumbnail_url" props) = true /\
    r = {| url := JS.own_property "thumbnail_url" props;
           width := if JS.truthy (JS.own_property "thumbnail_width" props)
                    then JS.own_property "thumbnail_width" props
                    else JS.JNumber (JS.number_of_Z 640);
           height := if JS.truthy (JS.own_property "thumbnail_height" props)
                     then JS.own_property "thumbnail_height" props
                     else JS.JNumber (JS.number_of_Z 360);
           platform := vimeo;
           cached := false |}.
Proof.
  unfold fetchVimeoThumbnail, await_fetch. split.
  - destruct (JS.encodeURIComponent rt url) as [encoded|] eqn:Henc;
      cbn [lift bind try_catch run]; [|discriminate].
    destruct (fetch env _ w) as [[|res] w1] eqn:Hfetch;
      cbn [lift bind try_catch run completion]; [discriminate|].
    destruct (ok res) eqn:Hok; cbn [negb lift bind try_catch run completion];
      [|discriminate].
    destruct (json res) as [data|] eqn:Hjson;
      cbn [lift bind try_catch run completion]; [|discriminate].
    destruct (JS.get data "thumbnail_url") as [v|] eqn:Hv;
      cbn [lift bind try_catch run completion]; [|discriminate].
    destruct (JS.truthy v) eqn:Ht; cbn [negb lift bind try_catch run completion];
      [|discriminate].
    destruct (truthy_property _ _ _ Hv Ht) as [props ->].
    cbn in Hv. injection Hv as <-.
    cbn [JS.get lift bind try_catch run completion].
    intros [= <-]. exists encoded, res, w1, props. repeat split; auto.
  - intros (encoded & res & w1 & props & Henc & Hfetch & Hok & Hjson & Ht & ->).
    rewrite Henc. cbn [lift bind try_catch run]. rewrite Hfetch.
    cbn [lift bind try_catch run completion]. rewrite Hok, Hjson.
    cbn [negb JS.get lift bind try_catch run completion]. rewrite Ht.
    reflexivity.
Qed.

(** X18. [fetchPeerTubeThumbnail] returns a result exactly when the URL
    parses, the regular expression finds an identifier, [fetch] resolves the
    request to the instance with an ok response, the body parses to an
    object, the path chosen from it ([thumbnailPath], or [previewPath] when
    that is absent or [null]) is truthy and converts to a string; the result
    is then the origin followed by the path, 560 by 315.  Everything else
    gives none. *)
Theorem fetchPeerTubeThumbnail_some_iff (url : string) (w : W) (r : ThumbnailResult) :
  completion (run env (fetchPeerTubeThumbnail rt url) w) = Normal (Some r) <->
  exists urlObj uuid res w1 props path,
    JS.new_URL rt url = Normal urlObj /\
    JS.match_ url uuid_pattern = Some uuid /\
    fetch env {| input := (JS.origin urlObj ++ "/api/v1/videos/" ++ uuid)%string;
                 init := accept_json |} w = (Resolved res, w1) /\
    ok res = true /\
    json res = Normal (JS.JObject props) /\
    JS.truthy (if JS.nullish (JS.own_property "thumbnailPath" props)
               then JS.own_property "previewPath" props
               else JS.own_property "thumbnailPath" props) = true /\
    JS.ToString rt (if JS.nullish (JS.own_property "thumbnailPath" props)
                    then JS.own_property "previewPath" props
                    else JS.own_property "thumbnailPath" props) = Normal path /\
    r = {| url := JS.JString (JS.origin urlObj ++ path);
           width := JS.JNumber (JS.number_of_Z 560);
           height := JS.JNumber (JS.number_of_Z 315);
           platform := peertube;
           cached := false |}.
Proof.
  unfold fetchPeerTubeThumbnail, await_fetch. split.
  - destruct (JS.new_URL rt url) as [urlObj|] eqn:Hparse;
      cbn [lift bind try_catch run]; [|discriminate].
    destruct (JS.match_ url uuid_pattern) as [[|c g]|] eqn:Hmatch;
      cbn [lift bind try_catch run]; try discriminate.
    destruct (fetch env _ w) as [[|res] w1] eqn:Hfetch;
      cbn [lift bind try_catch run completion]; [discriminate|].
    destruct (ok res) eqn:Hok; cbn [negb lift bind try_catch run completion];
      [|discriminate].
    destruct (json res) as [data|] eqn:Hjson;
      cbn [lift bind try_catch run completion]; [|discriminate].
    destruct (JS.get data "thumbnailPath") as [v1|] eqn:Hv1;
      cbn [lift bind try_catch run completion]; [|discriminate].
    assert (Hchosen : forall chosen,
               JS.truthy chosen = true ->
               chosen = (if JS.nullish v1
                         then match JS.get data "previewPath" with
                              | Normal v2 => v2
                              | Abrupt => JS.JUndefined
                              end
                         else v1) ->
               exists props, data = JS.JObject props).
    { intros chosen Ht ->. destruct (JS.nullish v1) eqn:Hn.
      - destruct (JS.get data "previewPath") as [v2|] eqn:Hv2;
          [|discriminate].
        eapply truthy_property; eauto.
      - eapply truthy_property; eauto. }
    destruct (JS.nullish v1) eqn:Hn;
      cbn [lift bind try_catch run completion].
    + destruct (JS.get data "previewPath") as [v2|] eqn:Hv2;
        cbn [lift bind try_catch run completion]; [|discriminate].
      destruct (JS.truthy v2) eqn:Ht; cbn [negb lift bind try_catch run completion];
        [|discriminate].
      destruct (JS.ToString rt v2) as [path|] eqn:Hs;
        cbn [lift bind try_catch run completion]; [|discriminate].
      intros [= <-].
      destruct (Hchosen v2 Ht eq_refl) as [props ->].
      cbn in Hv1, Hv2. injection Hv1 as <-. injection Hv2 as <-.
      exists urlObj, (String c g), res, w1, props, path.
      rewrite Hn. repeat split; auto.
    + destruct (JS.truthy v1) eqn:Ht; cbn [negb lift bind try_catch run completion];
        [|discriminate].
      destruct (JS.ToString rt v1) as [path|] eqn:Hs;
        cbn [lift bind try_catch run completion]; [|discriminate].
      intros [= <-].
      destruct (Hchosen v1 Ht eq_refl) as [props ->].
      cbn in Hv1. injection Hv1 as <-.
      exists urlObj, (String c g), res, w1, props, path.
      rewrite Hn. repeat split; auto.
  - intros (urlObj & uuid & res & w1 & props & path & Hparse & Hmatch & Hfetch
            & Hok & Hjson & Ht & Hs & ->).
    destruct (match_sound _ _ _ Hmatch) as (_ & _ & _ & _ & _ & Hne & _).
    rewrite Hparse, Hmatch. destruct uuid as [|c g]; [contradiction|].
    cbn [lift bind try_catch run]. rewrite Hfetch.
    cbn [lift bind try_catch run completion]. rewrite Hok, Hjson.
    cbn [negb JS.get lift bind try_catch run completion].
    destruct (JS.nullish (JS.own_property "thumbnailPath" props));
      cbn [JS.get lift bind try_catch run completion];
      rewrite Ht; cbn [negb lift bind try_catch run completion];
      rewrite Hs; reflexivity.
Qed.

End FetcherResults.

(** ** Calls that find no fresh entry *)

Section NoFreshEntry.
Context {W : Type} (env : World W) (rt : JS.Runtime).

(** X19. A call that finds no entry for its URL, or finds one whose age is
    the TTL or more, never answers from the cache: a result it returns has
    [cached] false, [fetch] was called for it, and the entry that is in the
    cache afterwards holds this result with the time read after the fetch,
    not the old entry. *)
Theorem getVideoThumbnail_stale_refetches (videoUrl : string) (s s' : Store)
        (w : W) (r : ThumbnailResult) :
  (forall e, JS.Map_get videoUrl (thumbnailCache s) = Some e ->
             fst (now env w) - timestamp e >= CACHE_TTL) ->
  completion (run env (getVideoThumbnail rt videoUrl s) w) = Normal (Some r, s') ->
  cached r = false /\
  (1 <= length (requests (run env (getVideoThumbnail rt videoUrl s) w)))%nat /\
  exists t w0,
    JS.Map_get videoUrl (thumbnailCache s') = Some {| result := r; timestamp := t |} /\
    now env w0 = (t, world (run env (getVideoThumbnail rt videoUrl s) w)).
Proof.
  intros Hstale Hrun.
  destruct (getVideoThumbnail_cases env rt videoUrl s w _ Hrun)
    as [(e & Hget & Hage & _) | (s0 & w0 & _ & Hout)].
  - specialize (Hstale e Hget). lia.
  - destruct Hout as [(_ & [=] & _) | (p & _ & Hreq & [(_ & [=]) | (r1 & t & Hd & Hnow & [= -> ->])])].
    destruct (run_dispatch_result env rt p videoUrl w0 r1 Hd) as (Hc & _ & Hlen & _).
    rewrite Hreq. split; [exact Hc|]. split; [apply Hlen|].
    exists t. eexists. cbn [thumbnailCache with_cache].
    split; [apply Map_get_set | exact Hnow].
Qed.

(** X20. A URL that [detectPlatform] takes for YouTube but in which
    [extractYouTubeId] finds no identifier, a channel page for one, gives none
    without a request and is not cached. *)
Theorem getVideoThumbnail_youtube_without_id (videoUrl : string) (s : Store)
        (w : W) :
  JS.Map_get videoUrl (thumbnailCache s) = None ->
  detectPlatform rt videoUrl = Normal (Some youtube) ->
  extractYouTubeId videoUrl = None ->
  run env (getVideoThumbnail rt videoUrl s) w =
  {| completion := Normal (None, s); requests := []; world := w |}.
Proof.
  intros Hget Hdetect Hid.
  rewrite run_getVideoThumbnail, Hget, run_resolve, Hdetect.
  cbn [dispatch]. unfold fetchYouTubeThumbnail. rewrite Hid. reflexivity.
Qed.

End NoFreshEntry.

(** ** The further theorems at concrete inputs *)

Lemma example_store_ok : JS.Map_ok (thumbnailCache example_store).
Proof. repeat constructor. simpl. tauto. Defined.

Lemma example_two_entries_ok : JS.Map_ok (thumbnailCache example_two_entries).
Proof. repeat constructor; simpl; intuition discriminate. Defined.

Lemma example_store_reachable : Reachable example_runtime example_store.
Proof.
  apply (reachable_call example_runtime scripted
           {| answers := [answer_not_found; answer_ok]; times := [1000] |}
           (call_getVideoThumbnail example_video) empty_store).
  - apply reachable_initial.
  - reflexivity.
Defined.

Lemma getVideoThumbnail_none_not_cached_witness :
  completion (run scripted
                (getVideoThumbnail example_runtime example_video example_store)
                {| answers := []; times := [86401000] |}) =
  Normal (None, {| thumbnailCache := []; arrays := [] |}) /\
  JS.Map_get example_video (thumbnailCache {| thumbnailCache := []; arrays := [] |}) =
  None.
Proof.
  split; [reflexivity|].
  exact (getVideoThumbnail_none_not_cached
           scripted example_runtime example_video example_store
           {| thumbnailCache := []; arrays := [] |}
           {| answers := []; times := [86401000] |}
           example_store_ok eq_refl).
Defined.

Lemma getVideoThumbnail_result_cached_witness :
  exists e,
    JS.Map_get example_video (thumbnailCache example_store) = Some e /\
    url (result e) = url example_hq /\ width (result e) = width example_hq /\
    height (result e) = height example_hq /\
    platform (result e) = platform example_hq /\
    (cached example_hq = false ->
     result e = example_hq /\
     exists w0, now scripted w0 = (timestamp e, {| answers := []; times := [] |})).
Proof.
  exact (getVideoThumbnail_result_cached
           scripted example_runtime example_video empty_store example_store
           {| answers := [answer_not_found; answer_ok]; times := [1000] |}
           example_hq eq_refl).
Defined.

Lemma getVideoThumbnail_frame_witness :
  JS.Map_get "https://youtu.be/new"
             (thumbnailCache
                {| thumbnailCache :=
                     [("https://youtu.be/old", {| result := example_hq; timestamp := 0 |});
                      ("https://youtu.be/new", {| result := example_hq; timestamp := 1 |});
                      (example_video, {| result := example_hq; timestamp := 5 |})];
                   arrays := [] |}) =
  JS.Map_get "https://youtu.be/new" (thumbnailCache example_two_entries).
Proof.
  exact (proj1 (getVideoThumbnail_frame
                  scripted example_runtime example_video "https://youtu.be/new"
                  example_two_entries
                  {| thumbnailCache :=
                       [("https://youtu.be/old", {| result := example_hq; timestamp := 0 |});
                        ("https://youtu.be/new", {| result := example_hq; timestamp := 1 |});
                        (example_video, {| result := example_hq; timestamp := 5 |})];
                     arrays := [] |}
                  {| answers := [answer_not_found; answer_ok]; times := [5] |}
                  (Some example_hq) eq_refl
                  ltac:(discriminate))).
Defined.

Lemma getVideoThumbnail_cached_flag_witness :
  (cached (spread_cached example_hq true) = true <->
   requests (run scripted (getVideoThumbnail example_runtime example_video example_store)
                 {| answers := [answer_ok]; times := [2000] |}) = []) /\
  (cached (spread_cached example_hq true) = true -> example_store = example_store).
Proof.
  exact (getVideoThumbnail_cached_flag
           scripted example_runtime example_video example_store example_store
           {| answers := [answer_ok]; times := [2000] |}
           (spread_cached example_hq true) eq_refl).
Defined.

Lemma reachable_store_invariant_witness :
  NoDup (JS.Map_keys (thumbnailCache example_store)) /\
  forall k e, JS.Map_get k (thumbnailCache example_store) = Some e ->
              cached (result e) = false /\
              detectPlatform example_runtime k = Normal (Some (platform (result e))).
Proof.
  exact (reachable_store_invariant example_runtime example_store
                                   example_store_reachable).
Defined.

Lemma getVideoThumbnail_platform_witness :
  detectPlatform example_runtime example_video =
  Normal (Some (platform (spread_cached example_hq true))).
Proof.
  exact (getVideoThumbnail_platform
           scripted example_runtime example_video example_store example_store
           {| answers := []; times := [2000] |}
           (spread_cached example_hq true)
           example_store_reachable eq_refl).
Defined.

Lemma getCacheStats_keys_witness :
  exists ks,
    Array_read (snd (getCacheStats example_two_entries))
               (keys (fst (getCacheStats example_two_entries))) = Some ks /\
    size (fst (getCacheStats example_two_entries)) = Z.of_nat (length ks) /\
    NoDup ks /\
    (forall k, In k ks <->
               exists e, JS.Map_get k (thumbnailCache example_two_entries) = Some e) /\
    thumbnailCache (snd (getCacheStats example_two_entries)) =
    thumbnailCache example_two_entries.
Proof.
  exact (getCacheStats_keys example_two_entries example_two_entries_ok).
Defined.

Lemma getVideoThumbnail_size_witness :
  completion (run scripted
                (getVideoThumbnail example_runtime example_video example_store)
                {| answers := []; times := [86401000] |}) =
  Normal (None, {| thumbnailCache := []; arrays := [] |}) /\
  JS.Map_size (thumbnailCache {| thumbnailCache := []; arrays := [] |}) =
  JS.Map_size (thumbnailCache example_store) + -1.
Proof.
  split; [reflexivity|].
  exact (getVideoThumbnail_size
           scripted example_runtime example_video example_store
           {| thumbnailCache := []; arrays := [] |}
           {| answers := []; times := [86401000] |}
           None example_store_ok eq_refl).
Defined.

Lemma pruneExpiredCache_then_getVideoThumbnail_witness :
  run scripted
      (getVideoThumbnail example_runtime "https://youtu.be/new"
         {| thumbnailCache :=
              [("https://youtu.be/new", {| result := example_hq; timestamp := 1 |})];
            arrays := [] |})
      {| answers := []; times := [86400000] |} =
  {| completion :=
       Normal (Some (spread_cached example_hq true),
               {| thumbnailCache :=
                    [("https://youtu.be/new", {| result := example_hq; timestamp := 1 |})];
                  arrays := [] |});
     requests := [];
     world := {| answers := []; times := [] |} |}.
Proof.
  apply (proj1 (pruneExpiredCache_then_getVideoThumbnail
                  scripted example_runtime example_two_entries
                  {| thumbnailCache :=
                       [("https://youtu.be/new", {| result := example_hq; timestamp := 1 |})];
                     arrays := [] |}
                  1 "https://youtu.be/new"
                  {| answers := []; times := [86400000] |}
                  {| answers := []; times := [86400000] |}
                  example_two_entries_ok eq_refl ltac:(cbn; lia))
               {| result := example_hq; timestamp := 1 |}).
  reflexivity.
Defined.

Lemma pruneExpiredCache_twice_witness :
  completion (run scripted (pruneExpiredCache example_two_entries)
                  {| answers := []; times := [86400000] |}) =
  Normal (1, {| thumbnailCache :=
                  [("https://youtu.be/new", {| result := example_hq; timestamp := 1 |})];
                arrays := [] |}) /\
  completion (run scripted
                  (pruneExpiredCache
                     {| thumbnailCache :=
                          [("https://youtu.be/new",
                            {| result := example_hq; timestamp := 1 |})];
                        arrays := [] |})
                  {| answers := []; times := [86400001] |}) =
  Normal (1, {| thumbnailCache := []; arrays := [] |}) /\
  completion (run scripted (pruneExpiredCache example_two_entries)
                  {| answers := []; times := [86400001] |}) =
  Normal (2, {| thumbnailCache := []; arrays := [] |}) /\
  {| thumbnailCache := []; arrays := [] |} = {| thumbnailCache := []; arrays := [] |} /\
  1 + 1 = 2.
Proof.
  split; [reflexivity|]. split; [reflexivity|]. split; [reflexivity|].
  exact (pruneExpiredCache_twice
           scripted example_two_entries
           {| thumbnailCache :=
                [("https://youtu.be/new", {| result := example_hq; timestamp := 1 |})];
              arrays := [] |}
           {| thumbnailCache := []; arrays := [] |}
           {| thumbnailCache := []; arrays := [] |}
           1 1 2
           {| answers := []; times := [86400000] |}
           {| answers := []; times := [86400001] |}
           {| answers := []; times := [86400001] |}
           example_two_entries_ok ltac:(cbn; lia) eq_refl eq_refl eq_refl eq_refl).
Defined.

Lemma fetchVimeoThumbnail_some_iff_witness :
  completion
    (run scripted (fetchVimeoThumbnail example_runtime "https://vimeo.com/123456")
         {| answers :=
              [answer_json (JS.JObject [("thumbnail_url", JS.JString "X");
                                        ("thumbnail_height", JS.JNumber (JS.number_of_Z 200))])];
            times := [] |}) =
  Normal (Some {| url := JS.JString "X";
                  width := JS.JNumber (JS.number_of_Z 640);
                  height := JS.JNumber (JS.number_of_Z 200);
                  platform := vimeo;
                  cached := false |}).
Proof.
  apply (proj2 (fetchVimeoThumbnail_some_iff
                  scripted example_runtime "https://vimeo.com/123456"
                  {| answers :=
                       [answer_json (JS.JObject [("thumbnail_url", JS.JString "X");
                                                 ("thumbnail_height",
                                                  JS.JNumber (JS.number_of_Z 200))])];
                     times := [] |} _)).
  exists "https%3A%2F%2Fvimeo.com%2F123456",
         {| ok := true;
            json := Normal (JS.JObject [("thumbnail_url", JS.JString "X");
                                        ("thumbnail_height",
                                         JS.JNumber (JS.number_of_Z 200))]) |},
         {| answers := []; times := [] |},
         [("thumbnail_url", JS.JString "X");
          ("thumbnail_height", JS.JNumber (JS.number_of_Z 200))].
  repeat split.
Defined.

Lemma fetchPeerTubeThumbnail_some_iff_witness :
  completion
    (run scripted
       (fetchPeerTubeThumbnail example_runtime "https://pt.example.com/videos/watch/uuid-2")
       {| answers := [answer_json (JS.JObject [("previewPath", JS.JString "/p.jpg")])];
          times := [] |}) =
  Normal (Some {| url := JS.JString "https://pt.example.com/p.jpg";
                  width := JS.JNumber (JS.number_of_Z 560);
                  height := JS.JNumber (JS.number_of_Z 315);
                  platform := peertube;
                  cached := false |}).
Proof.
  apply (proj2 (fetchPeerTubeThumbnail_some_iff
                  scripted example_runtime "https://pt.example.com/videos/watch/uuid-2"
                  {| answers := [answer_json (JS.JObject [("previewPath", JS.JString "/p.jpg")])];
                     times := [] |} _)).
  exists {| JS.hostname := "pt.example.com"; JS.origin := "https://pt.example.com" |},
         "uuid-2",
         {| ok := true; json := Normal (JS.JObject [("previewPath", JS.JString "/p.jpg")]) |},
         {| answers := []; times := [] |},
         [("previewPath", JS.JString "/p.jpg")],
         "/p.jpg".
  repeat split.
Defined.

Lemma getVideoThumbnail_stale_refetches_witness :
  cached example_hq = false /\
  (1 <= length (requests (run scripted
                            (getVideoThumbnail example_runtime example_video example_store)
                            {| answers := [answer_not_found; answer_ok];
                               times := [86401000; 86401005]%Z |})))%nat /\
  exists t w0,
    JS.Map_get example_video
               (thumbnailCache
                  {| thumbnailCache :=
                       [(example_video, {| result := example_hq; timestamp := 86401005 |})];
                     arrays := [] |}) =
    Some {| result := example_hq; timestamp := t |} /\
    now scripted w0 = (t, {| answers := []; times := [] |}).
Proof.
  apply (getVideoThumbnail_stale_refetches
           scripted example_runtime example_video example_store
           {| thumbnailCache :=
                [(example_video, {| result := example_hq; timestamp := 86401005 |})];
              arrays := [] |}
           {| answers := [answer_not_found; answer_ok];
              times := [86401000; 86401005] |}
           example_hq).
  - intros e H. injection H as <-. cbn. lia.
  - reflexivity.
Defined.

Lemma getVideoThumbnail_youtube_without_id_witness :
  run scripted
      (getVideoThumbnail example_runtime "https://www.youtube.com/channel/UC123"
                         example_store)
      {| answers := [answer_ok]; times := [] |} =
  {| completion := Normal (None, example_store); requests := [];
     world := {| answers := [answer_ok]; times := [] |} |}.
Proof.
  exact (getVideoThumbnail_youtube_without_id
           scripted example_runtime "https://www.youtube.com/channel/UC123"
           example_store {| answers := [answer_ok]; times := [] |}
           eq_refl eq_refl eq_refl).
Defined.
